(** * gcache: a byte cache facade over fastcache, and its TTL overlay

    Shallow embedding of [gcache.go], [gcache_ttl.go] and [interface.go].

    - Go integers are [Z] with the wrap-around of each conversion written out.
    - A [[]byte] is [option (list byte)]: [None] is the nil slice, [Some l] a
      non-nil slice holding [l] (so the empty non-nil slice is [Some []]).
    - A run-time panic is an explicit outcome, so that "does not panic" is a
      statement and not a consequence of totality.
    - [time.Now()] is the [now] argument of the operation that reads the
      clock; a [time.Time] is its number of nanoseconds since the Unix epoch.
    - The receiver is passed in and handed back: every method returns its
      result paired with the receiver's state after the call. *)

From Stdlib Require Import ZArith Lia.
From Stdlib.Strings Require Import Byte.
From stdpp Require Import base option list gmap strings.

Local Open Scope Z_scope.

(** ** Machine integers *)

Definition two_63 : Z := 2 ^ 63.
Definition two_64 : Z := 2 ^ 64.

(** Conversion to [uint64]: reduction modulo 2^64. *)
Definition to_uint64 (z : Z) : Z := z mod two_64.

(** Conversion to [int64]: the representative in [-2^63, 2^63). *)
Definition to_int64 (z : Z) : Z := (z + two_63) mod two_64 - two_63.

Definition is_int64 (z : Z) : Prop := - two_63 <= z < two_63.
Definition is_uint64 (z : Z) : Prop := 0 <= z < two_64.

(** ** Bytes and slices *)

(** Go's [byte(x)] conversion keeps the low eight bits. *)
Definition byte_of_Z (z : Z) : byte :=
  match Byte.of_N (Z.to_N (z mod 256)) with
  | Some b => b
  | None => x00
  end.

(** Go's [uint64(b)] for a byte [b]. *)
Definition Z_of_byte (b : byte) : Z := Z.of_N (Byte.to_N b).

Definition slice : Type := option (list byte).

(** The bytes a slice holds; the nil slice holds none. *)
Definition bytes_of (s : slice) : list byte :=
  match s with
  | Some l => l
  | None => []
  end.

(** [len(s)] *)
Definition len (s : slice) : nat := length (bytes_of s).

(** [make([]byte, n)]: a non-nil slice of [n] zero bytes. *)
Definition make (n : nat) : list byte := replicate n x00.

(** [copy(dst, src)] writes [min(len(dst), len(src))] bytes of [src] over
    the front of [dst] and leaves the rest of [dst] as it was. *)
Definition copy (dst src : list byte) : list byte :=
  take (length dst) src ++ drop (length src) dst.

(** [append(dst, v...)]: appending nothing to the nil slice gives the nil
    slice back; in every other case the result is non-nil. *)
Definition append (dst : slice) (v : list byte) : slice :=
  match dst with
  | Some d => Some (d ++ v)
  | None => match v with [] => None | _ :: _ => Some v end
  end.

(** ** Panics *)

Inductive outcome (A : Type) : Type :=
  | Ret (a : A)
  | Panic.
Arguments Ret {A} a.
Arguments Panic {A}.

#[export] Instance outcome_ret : MRet outcome := fun _ a => Ret a.

#[export] Instance outcome_bind : MBind outcome := fun _ _ k m =>
  match m with
  | Ret a => k a
  | Panic => Panic
  end.

(** [s[:n]].  Go allows [n] up to the capacity; capacities are not tracked
    here, so the bound is the length, which can only add panics. *)
Definition slice_to (s : slice) (n : nat) : outcome slice :=
  if (len s <? n)%nat then Panic else Ret (take n <$> s).

(** [s[n:]] panics when [n > len(s)]. *)
Definition slice_from (s : slice) (n : nat) : outcome slice :=
  if (len s <? n)%nat then Panic else Ret (drop n <$> s).

(** ** encoding/binary, big endian *)

(** [binary.BigEndian.PutUint64(b, v)]: bounds check on [b[7]], then the
    eight stores.  Returns the contents of [b] after the call. *)
Definition PutUint64 (b : list byte) (v : Z) : outcome (list byte) :=
  if (length b <? 8)%nat then Panic
  else Ret (<[7%nat := byte_of_Z v]>
           (<[6%nat := byte_of_Z (Z.shiftr v 8)]>
           (<[5%nat := byte_of_Z (Z.shiftr v 16)]>
           (<[4%nat := byte_of_Z (Z.shiftr v 24)]>
           (<[3%nat := byte_of_Z (Z.shiftr v 32)]>
           (<[2%nat := byte_of_Z (Z.shiftr v 40)]>
           (<[1%nat := byte_of_Z (Z.shiftr v 48)]>
           (<[0%nat := byte_of_Z (Z.shiftr v 56)]> b)))))))).

(** [binary.BigEndian.Uint64(b)] *)
Definition Uint64 (b : list byte) : outcome Z :=
  match b with
  | b0 :: b1 :: b2 :: b3 :: b4 :: b5 :: b6 :: b7 :: _ =>
      Ret (Z.lor (Z_of_byte b7)
          (Z.lor (Z.shiftl (Z_of_byte b6) 8)
          (Z.lor (Z.shiftl (Z_of_byte b5) 16)
          (Z.lor (Z.shiftl (Z_of_byte b4) 24)
          (Z.lor (Z.shiftl (Z_of_byte b3) 32)
          (Z.lor (Z.shiftl (Z_of_byte b2) 40)
          (Z.lor (Z.shiftl (Z_of_byte b1) 48)
                 (Z.shiftl (Z_of_byte b0) 56))))))))
  | _ => Panic
  end.

(** ** time *)

(** A [time.Time], as nanoseconds since the Unix epoch.  Go keeps seconds
    and nanoseconds apart and its [Add] saturates only when the seconds
    leave the [int64] range, some 292 billion years away. *)
Definition Time : Type := Z.

(** A [time.Duration] is an [int64] count of nanoseconds. *)
Definition Duration : Type := Z.

Definition Millisecond : Duration := 1000000.
Definition Second : Duration := 1000 * Millisecond.

(** [t.Add(d)] *)
Definition Time_Add (t : Time) (d : Duration) : Time := t + d.

(** [t.UnixMilli()]: whole milliseconds since the epoch, rounded down, as
    an [int64]. *)
Definition UnixMilli (t : Time) : Z := to_int64 (t / 1000000).

(** Clock readings that [UnixNano] can represent (years 1678 to 2262). *)
Definition wall_ok (t : Time) : Prop := is_int64 t.

(** ** The store: github.com/VictoriaMetrics/fastcache

    The store is a third-party package; what follows is its documented
    behaviour for the five calls the facade makes, over a finite map from
    keys to values.

    - [Get] "appends value by the key k to dst and returns the result": on a
      miss nothing is appended and [dst] itself comes back.
    - [Set]: "(k, v) entries with summary size exceeding 64KB aren't stored
      in the cache"; the entry is laid out as a 4-byte length header, the
      key and the value, and must fit one 64KB chunk.
    - Hash buckets and eviction of old entries when the memory budget is
      used up are not modelled: a write never removes another entry here. *)
Module fastcache.

Record Cache : Type := mk { entries : gmap string (list byte) }.

Definition chunkSize : Z := 64 * 1024.

(** The two size guards at the head of the bucket's [Set]: key and value
    lengths must each fit 16 bits ([len >= 1<<16] skips the entry), and
    header, key and value together must be shorter than a chunk. *)
Definition fits (k : string) (v : list byte) : bool :=
  let lk := Z.of_nat (String.length k) in
  let lv := Z.of_nat (length v) in
  negb ((2 ^ 16 <=? lk) || (2 ^ 16 <=? lv)) && negb (chunkSize <=? 4 + lk + lv).

Definition New (maxBytes : Z) : Cache := mk ∅.

Definition Has (c : Cache) (k : string) : bool :=
  bool_decide (is_Some (entries c !! k)).

Definition Get (c : Cache) (dst : slice) (k : string) : slice :=
  match entries c !! k with
  | Some v => append dst v
  | None => dst
  end.

Definition Set_ (c : Cache) (k : string) (v : slice) : Cache :=
  if fits k (bytes_of v) then mk (<[k := bytes_of v]> (entries c)) else c.

Definition Del (c : Cache) (k : string) : Cache := mk (delete k (entries c)).

Definition Reset (c : Cache) : Cache := mk ∅.

End fastcache.

(** ** gcache.go *)

(** The [sync.Pool] of scratch buffers.  A pooled item is a [*[]byte] whose
    slice header the facade never assigns to: it stays the non-nil, length 0,
    capacity 1024 header that [New] made.  What can change is the backing
    array, so a pooled item is kept as the bytes lying in that array. *)
Definition Pool : Type := list (list byte).

Definition newSyncPool : Pool := [].

(** The pool's [New] function: [make([]byte, 0, 1024)]. *)
Definition Pool_New : list byte := replicate 1024 x00.

Definition Pool_Get (p : Pool) : list byte * Pool :=
  match p with
  | b :: p' => (b, p')
  | [] => (Pool_New, [])
  end.

Definition Pool_Put (p : Pool) (b : list byte) : Pool := b :: p.

(** What appending [v] to the empty prefix of a backing array leaves in that
    array: [v] over its front when it fits, nothing when [append] had to
    move to a larger array. *)
Definition write_through (backing v : list byte) : list byte :=
  if (length v <=? length backing)%nat then v ++ drop (length v) backing
  else backing.

Record Cache : Type := mkCache { pool : Pool; cache : fastcache.Cache }.

Definition error : Type := option string.

Definition NewCache (maxBytes : Z) : Cache :=
  {| pool := newSyncPool; cache := fastcache.New maxBytes |}.

Definition Cache_Has (c : Cache) (key : string) : bool * Cache :=
  (fastcache.Has (cache c) key, c).

(** [Get]: take a scratch buffer, let the store append the value to its
    empty prefix [( *buf)[:0]] (a non-nil slice of length 0), return nil if
    what comes back is nil, and a fresh copy of it otherwise; the buffer
    goes back to the pool on both paths. *)
Definition Cache_Get (c : Cache) (key : string) : slice * Cache :=
  let bkey := key in
  let '(buf, p) := Pool_Get (pool c) in
  let dst : slice := Some [] in
  let dst := fastcache.Get (cache c) dst bkey in
  let buf := write_through buf (bytes_of dst) in
  match dst with
  | None => (None, {| pool := Pool_Put p buf; cache := cache c |})
  | Some d =>
      let out := copy (make (length d)) d in
      (Some out, {| pool := Pool_Put p buf; cache := cache c |})
  end.

Definition Cache_Set (c : Cache) (key : string) (value : slice) : error * Cache :=
  (None, {| pool := pool c; cache := fastcache.Set_ (cache c) key value |}).

Definition Cache_Delete (c : Cache) (key : string) : error * Cache :=
  (None, {| pool := pool c; cache := fastcache.Del (cache c) key |}).

Definition Cache_Close (c : Cache) : error * Cache :=
  (None, {| pool := pool c; cache := fastcache.Reset (cache c) |}).

(** ** interface.go *)

Class ICache (T : Type) : Type := {
  ICache_Has : T -> string -> bool * T;
  ICache_Get : T -> string -> slice * T;
  ICache_Set : T -> string -> slice -> error * T;
  ICache_Delete : T -> string -> error * T;
  ICache_Close : T -> error * T
}.

#[export] Instance Cache_ICache : ICache Cache := {|
  ICache_Has := Cache_Has;
  ICache_Get := Cache_Get;
  ICache_Set := Cache_Set;
  ICache_Delete := Cache_Delete;
  ICache_Close := Cache_Close
|}.

(** ** gcache_ttl.go *)

(** The struct embeds one [ICache]. *)
Record CacheWithTTL (T : Type) : Type := mkTTL { embedded : T }.
Arguments mkTTL {T} embedded.
Arguments embedded {T} c.

Definition NewCacheWithTTL (maxBytes : Z) : CacheWithTTL Cache :=
  mkTTL (NewCache maxBytes).

(** [wrapCacheWithTTL]: the stamp goes into [buf[:8]], which shares its
    memory with [buf], and the payload is copied over [buf[8:]]. *)
Definition wrapCacheWithTTL (now : Time) (data : slice) (ttl : Duration)
  : outcome slice :=
  let expireAt := UnixMilli (Time_Add now ttl) in
  let buf := make (8 + len data) in
  hd ← slice_to (Some buf) 8;
  hd ← PutUint64 (bytes_of hd) (to_uint64 expireAt);
  let buf := hd ++ drop 8 buf in
  tl ← slice_from (Some buf) 8;
  let buf := take 8 buf ++ copy (bytes_of tl) (bytes_of data) in
  mret (Some buf).

(** [unwrapCacheWithTTL]; the test [time.Now().UnixMilli() >= int64(expireAt)]
    is written with its operands swapped. *)
Definition unwrapCacheWithTTL (now : Time) (data : slice)
  : outcome (slice * bool) :=
  if (len data <? 8)%nat then mret (None, false)
  else
    hd ← slice_to data 8;
    expireAt ← Uint64 (bytes_of hd);
    if to_int64 expireAt <=? UnixMilli now then mret (None, false)
    else tl ← slice_from data 8; mret (tl, true).

Section TTL.
Context {T : Type} `{ICache T}.

Definition CacheWithTTL_Has (c : CacheWithTTL T) (now : Time) (key : string)
  : outcome (bool * CacheWithTTL T) :=
  let '(raw, i) := ICache_Get (embedded c) key in
  '(_, ok) ← unwrapCacheWithTTL now raw;
  mret (ok, mkTTL i).

Definition CacheWithTTL_Get (c : CacheWithTTL T) (now : Time) (key : string)
  : outcome (slice * CacheWithTTL T) :=
  let '(raw, i) := ICache_Get (embedded c) key in
  '(data, ok) ← unwrapCacheWithTTL now raw;
  if negb ok then mret (None, mkTTL i) else mret (data, mkTTL i).

Definition CacheWithTTL_Set (c : CacheWithTTL T) (now : Time) (key : string)
    (value : slice) (ttl : Duration) : outcome (error * CacheWithTTL T) :=
  value ← wrapCacheWithTTL now value ttl;
  let '(err, i) := ICache_Set (embedded c) key value in
  mret (err, mkTTL i).

Definition CacheWithTTL_Delete (c : CacheWithTTL T) (key : string)
  : error * CacheWithTTL T :=
  let '(err, i) := ICache_Delete (embedded c) key in (err, mkTTL i).

Definition CacheWithTTL_Close (c : CacheWithTTL T) : error * CacheWithTTL T :=
  let '(err, i) := ICache_Close (embedded c) in (err, mkTTL i).

End TTL.

(** ** Vocabulary of the specification *)

(** The big-endian base-256 digits of [n], most significant first. *)
Fixpoint big_endian (width : nat) (n : Z) : list byte :=
  match width with
  | O => []
  | S w => byte_of_Z (n / 256 ^ Z.of_nat w) :: big_endian w n
  end.

(** The expiry a write at [now] with [ttl] stamps on its envelope. *)
Definition expireAt (now : Time) (ttl : Duration) : Z :=
  UnixMilli (Time_Add now ttl).

(** The envelope layout: eight-byte unsigned big-endian stamp, then payload. *)
Definition envelope (stamp : Z) (payload : list byte) : list byte :=
  big_endian 8 (to_uint64 stamp) ++ payload.

(** What the store holds under a key. *)
Definition stored (c : Cache) (key : string) : option (list byte) :=
  fastcache.entries (cache c) !! key.

(** The number a byte string denotes, read big-endian. *)
Definition be_value (l : list byte) : Z :=
  fold_left (fun acc b => acc * 256 + Z_of_byte b) l 0.

(** The expiry an envelope carries: its first eight bytes as a signed
    count of milliseconds. *)
Definition stamp (env : list byte) : Z := to_int64 (be_value (take 8 env)).

(** An entry of [n] value bytes under [key] is within the store's per-item
    ceiling. *)
Definition storable (key : string) (n : nat) : Prop :=
  4 + Z.of_nat (String.length key) + Z.of_nat n < 65536.

(** What a read at [now] makes of the bytes found under a key: the payload
    of a well-formed envelope whose expiry lies ahead, and nil otherwise. *)
Definition read_envelope (now : Time) (env : list byte) : slice :=
  if (length env <? 8)%nat || (stamp env <=? UnixMilli now) then None
  else Some (drop 8 env).

(** ** Sequences of calls *)

(** One call on the plain facade, by a single caller. *)
Inductive Cache_call : Type :=
  | CallHas (key : string)
  | CallGet (key : string)
  | CallSet (key : string) (value : slice)
  | CallDelete (key : string)
  | CallClose.

(** The facade after one call; the call's result is dropped. *)
Definition Cache_step (c : Cache) (op : Cache_call) : Cache :=
  match op with
  | CallHas key => snd (Cache_Has c key)
  | CallGet key => snd (Cache_Get c key)
  | CallSet key value => snd (Cache_Set c key value)
  | CallDelete key => snd (Cache_Delete c key)
  | CallClose => snd (Cache_Close c)
  end.

Definition Cache_run (c : Cache) (ops : list Cache_call) : Cache :=
  fold_left Cache_step ops c.

(** One call on the TTL facade, with the clock it reads where it reads one. *)
Inductive TTL_call : Type :=
  | TTLHas (now : Time) (key : string)
  | TTLGet (now : Time) (key : string)
  | TTLSet (now : Time) (key : string) (value : slice) (ttl : Duration)
  | TTLDelete (key : string)
  | TTLClose.

Definition TTL_step (c : CacheWithTTL Cache) (op : TTL_call)
  : outcome (CacheWithTTL Cache) :=
  match op with
  | TTLHas now key => r ← CacheWithTTL_Has c now key; mret (snd r)
  | TTLGet now key => r ← CacheWithTTL_Get c now key; mret (snd r)
  | TTLSet now key value ttl =>
      r ← CacheWithTTL_Set c now key value ttl; mret (snd r)
  | TTLDelete key => mret (snd (CacheWithTTL_Delete c key))
  | TTLClose => mret (snd (CacheWithTTL_Close c))
  end.

Fixpoint TTL_run (c : CacheWithTTL Cache) (ops : list TTL_call)
  : outcome (CacheWithTTL Cache) :=
  match ops with
  | [] => mret c
  | op :: ops => c' ← TTL_step c op; TTL_run c' ops
  end.

(** Every entry the store holds is within the per-item ceiling. *)
Definition entries_storable (c : Cache) : Prop :=
  forall k v, stored c k = Some v -> storable k (length v).

(** Every entry the store holds is long enough to carry a stamp. *)
Definition entries_enveloped (c : Cache) : Prop :=
  forall k v, stored c k = Some v -> (8 <= length v)%nat.

(** The pool holds at most one scratch buffer, of the capacity [New] gives. *)
Definition pool_settled (c : Cache) : Prop :=
  (length (pool c) <= 1)%nat /\ Forall (fun b => length b = 1024%nat) (pool c).

(** Closes [bool_decide (is_Some None) = false]. *)
Ltac holds_nothing :=
  apply bool_decide_eq_false; intros [? Hheld]; discriminate Hheld.

(** * Properties *)

(** ** Integer conversions *)

Lemma to_int64_small z : is_int64 z -> to_int64 z = z.
Proof.
  unfold is_int64, to_int64, two_63, two_64. intros Hz.
  rewrite Z.mod_small; lia.
Qed.

Lemma to_int64_range z : is_int64 (to_int64 z).
Proof.
  unfold is_int64, to_int64, two_63, two_64.
  pose proof (Z.mod_pos_bound (z + 2 ^ 63) (2 ^ 64)). lia.
Qed.

Lemma to_int64_to_uint64 z : to_int64 (to_uint64 z) = to_int64 z.
Proof.
  unfold to_int64, to_uint64, two_63, two_64.
  rewrite Zplus_mod_idemp_l. reflexivity.
Qed.

Lemma to_uint64_to_int64 z : to_uint64 (to_int64 z) = to_uint64 z.
Proof.
  unfold to_int64, to_uint64, two_63, two_64.
  rewrite Zminus_mod_idemp_l. f_equal. lia.
Qed.

Lemma to_uint64_small z : is_uint64 z -> to_uint64 z = z.
Proof. unfold is_uint64, to_uint64. intros Hz. apply Z.mod_small, Hz. Qed.

Lemma to_int64_mono a b :
  is_int64 a -> is_int64 b -> a <= b -> to_int64 a <= to_int64 b.
Proof. intros Ha Hb Hab. rewrite !to_int64_small by assumption. exact Hab. Qed.

(** ** Bytes *)

Lemma Z_of_byte_range b : 0 <= Z_of_byte b < 256.
Proof. unfold Z_of_byte. pose proof (Byte.to_N_bounded b). lia. Qed.

Lemma Z_of_byte_of_Z z : Z_of_byte (byte_of_Z z) = z mod 256.
Proof.
  unfold Z_of_byte, byte_of_Z.
  pose proof (Z.mod_pos_bound z 256 ltac:(lia)) as Hb.
  destruct (Byte.of_N (Z.to_N (z mod 256))) as [b|] eqn:Hof.
  - apply Byte.to_of_N in Hof. rewrite Hof. lia.
  - apply Byte.of_N_None_iff in Hof. lia.
Qed.

Lemma copy_make (d : list byte) : copy (make (length d)) d = d.
Proof.
  unfold copy, make. rewrite length_replicate.
  rewrite take_ge by lia. rewrite drop_ge by (rewrite length_replicate; lia).
  apply app_nil_r.
Qed.

(** ** Big-endian encoding and decoding *)

Lemma be_value_app l k :
  be_value (l ++ k) = be_value l * 256 ^ Z.of_nat (length k) + be_value k.
Proof.
  unfold be_value. rewrite fold_left_app.
  generalize (fold_left (fun acc b => acc * 256 + Z_of_byte b) l 0).
  induction k as [|b k IH]; intros a.
  - simpl. lia.
  - cbn [fold_left length]. rewrite IH, (IH (0 * 256 + Z_of_byte b)).
    rewrite Nat2Z.inj_succ, Z.pow_succ_r by lia. lia.
Qed.

Lemma be_value_cons b l :
  be_value (b :: l) = Z_of_byte b * 256 ^ Z.of_nat (length l) + be_value l.
Proof. change (b :: l) with ([b] ++ l). rewrite be_value_app. reflexivity. Qed.

Lemma length_big_endian w n : length (big_endian w n) = w.
Proof. induction w as [|w IH]; simpl; congruence. Qed.

(** Decoding the [w] big-endian digits of [n] gives [n] modulo 256^w. *)
Lemma be_value_big_endian w n :
  be_value (big_endian w n) = n mod 256 ^ Z.of_nat w.
Proof.
  induction w as [|w IH].
  - simpl. symmetry. apply Z.mod_1_r.
  - cbn [big_endian]. rewrite be_value_cons, IH, length_big_endian.
    rewrite Z_of_byte_of_Z, Nat2Z.inj_succ, Z.pow_succ_r by lia.
    rewrite (Z.mul_comm 256), Z.rem_mul_r by lia. lia.
Qed.

Lemma lor_shiftl_add a b k :
  0 <= k -> 0 <= a < 2 ^ k -> Z.lor a (Z.shiftl b k) = a + b * 2 ^ k.
Proof.
  intros Hk Ha. rewrite <- Z.shiftl_mul_pow2 by assumption.
  symmetry. apply Z.add_nocarry_lor. apply Z.bits_inj'. intros n Hn.
  rewrite Z.land_spec, Z.bits_0.
  destruct (Z.lt_ge_cases n k) as [Hlt|Hge].
  - rewrite Z.shiftl_spec_low by assumption. apply andb_false_r.
  - rewrite <- (Z.mod_small a (2 ^ k)) by assumption.
    rewrite Z.mod_pow2_bits_high by lia. reflexivity.
Qed.

Lemma Uint64_be_value l :
  (8 <= length l)%nat -> Uint64 l = Ret (be_value (take 8 l)).
Proof.
  intros Hl. do 8 (destruct l as [|? l]; [simpl in Hl; lia|]).
  cbn [Uint64 take]. f_equal.
  set (horner :=
    Z.lor (Z_of_byte b6) (Z.shiftl
   (Z.lor (Z_of_byte b5) (Z.shiftl
   (Z.lor (Z_of_byte b4) (Z.shiftl
   (Z.lor (Z_of_byte b3) (Z.shiftl
   (Z.lor (Z_of_byte b2) (Z.shiftl
   (Z.lor (Z_of_byte b1) (Z.shiftl
   (Z.lor (Z_of_byte b0) (Z.shiftl (Z_of_byte b) 8)) 8)) 8)) 8)) 8)) 8)) 8)).
  transitivity horner.
  - subst horner. rewrite !Z.shiftl_lor, !Z.shiftl_shiftl by lia. reflexivity.
  - subst horner.
    rewrite !lor_shiftl_add by (try apply Z_of_byte_range; lia).
    unfold be_value. change (take 0 l) with (@nil byte).
    cbn [fold_left]. change (2 ^ 8) with 256. lia.
Qed.

Lemma PutUint64_big_endian b v :
  length b = 8%nat -> PutUint64 b v = Ret (big_endian 8 v).
Proof.
  intros Hl. do 8 (destruct b as [|? b]; [discriminate Hl|]).
  destruct b; [|discriminate Hl].
  unfold PutUint64. cbn [length Nat.ltb Nat.leb]. cbn [big_endian].
  rewrite !Z.shiftr_div_pow2 by lia.
  change (256 ^ Z.of_nat 0) with 1. rewrite Z.div_1_r. reflexivity.
Qed.

(** ** The codec *)

Lemma wrapCacheWithTTL_envelope now data ttl :
  wrapCacheWithTTL now data ttl
  = Ret (Some (envelope (expireAt now ttl) (bytes_of data))).
Proof.
  unfold wrapCacheWithTTL, envelope.
  fold (expireAt now ttl). set (e := to_uint64 (expireAt now ttl)).
  change (make (8 + len data))
    with (replicate 8 x00 ++ replicate (len data) x00).
  assert (Hpre : slice_to (Some (replicate 8 x00 ++ replicate (len data) x00)) 8
                 = Ret (Some (replicate 8 x00))) by reflexivity.
  rewrite Hpre. cbn [mbind outcome_bind bytes_of].
  rewrite PutUint64_big_endian by reflexivity. cbn [mbind outcome_bind].
  assert (Hdrop : drop 8 (replicate 8 x00 ++ replicate (len data) x00)
                  = replicate (len data) x00) by reflexivity.
  rewrite Hdrop.
  assert (Hsuf : slice_from (Some (big_endian 8 e ++ replicate (len data) x00)) 8
                 = Ret (Some (replicate (len data) x00))) by reflexivity.
  rewrite Hsuf. cbn [mbind outcome_bind mret outcome_ret bytes_of].
  change (replicate (len data) x00) with (make (length (bytes_of data))).
  rewrite copy_make. reflexivity.
Qed.

Lemma stamp_envelope e payload : stamp (envelope e payload) = to_int64 e.
Proof.
  unfold stamp, envelope.
  rewrite <- (length_big_endian 8 (to_uint64 e)) at 1.
  rewrite take_app_length, be_value_big_endian.
  change (256 ^ Z.of_nat 8) with two_64. fold (to_uint64 (to_uint64 e)).
  rewrite !to_int64_to_uint64. reflexivity.
Qed.

Lemma unwrapCacheWithTTL_cases now data :
  unwrapCacheWithTTL now data
  = Ret (if (len data <? 8)%nat || (stamp (bytes_of data) <=? UnixMilli now)
         then (None, false)
         else (Some (drop 8 (bytes_of data)), true)).
Proof.
  unfold unwrapCacheWithTTL, slice_to, slice_from, stamp.
  destruct (Nat.ltb_spec (len data) 8) as [Hlt|Hge]; [reflexivity|].
  destruct data as [l|]; [|unfold len in Hge; simpl in Hge; lia].
  cbn [fmap option_fmap option_map mbind outcome_bind bytes_of orb].
  unfold len, bytes_of in Hge.
  rewrite (Uint64_be_value (take 8 l)) by (rewrite length_take; lia).
  cbn [mbind outcome_bind]. rewrite take_take. change (8 `min` 8)%nat with 8%nat.
  destruct (to_int64 (be_value (take 8 l)) <=? UnixMilli now); reflexivity.
Qed.

Lemma UnixMilli_exact t : is_int64 (t / 1000000) -> UnixMilli t = t / 1000000.
Proof. apply to_int64_small. Qed.

Lemma wall_ok_millis t d :
  wall_ok t -> is_int64 d -> is_int64 ((t + d) / 1000000).
Proof.
  unfold wall_ok, is_int64, two_63. intros Ht Hd.
  split.
  - apply Z.div_le_lower_bound; lia.
  - apply Z.div_lt_upper_bound; lia.
Qed.

Lemma UnixMilli_mono t u :
  is_int64 (t / 1000000) -> is_int64 (u / 1000000) -> t <= u ->
  UnixMilli t <= UnixMilli u.
Proof.
  intros Ht Hu Htu. unfold UnixMilli. apply to_int64_mono; try assumption.
  apply Z.div_le_mono; lia.
Qed.

Lemma wall_ok_reading t : wall_ok t -> is_int64 (t / 1000000).
Proof.
  intros Ht. rewrite <- (Z.add_0_r t). apply wall_ok_millis; [assumption|].
  unfold is_int64, two_63. lia.
Qed.

(** Once [now + ttl] has been reached, the reading is at or past the stamp. *)
Lemma expireAt_reached t0 t1 ttl :
  wall_ok t0 -> wall_ok t1 -> is_int64 ttl -> t0 + ttl <= t1 ->
  expireAt t0 ttl <= UnixMilli t1.
Proof.
  intros H0 H1 Hd Hle. unfold expireAt, Time_Add. apply UnixMilli_mono.
  - apply wall_ok_millis; assumption.
  - apply wall_ok_reading; assumption.
  - exact Hle.
Qed.

(** ** The store and the plain facade *)


Lemma fits_storable k v : fastcache.fits k v = true <-> storable k (length v).
Proof.
  unfold fastcache.fits, fastcache.chunkSize, storable.
  rewrite andb_true_iff, !negb_true_iff, orb_false_iff, !Z.leb_gt. lia.
Qed.

Lemma Cache_Get_result c key :
  fst (Cache_Get c key) = Some (default [] (stored c key)).
Proof.
  unfold Cache_Get, stored, fastcache.Get.
  destruct (Pool_Get (pool c)) as [buf p].
  destruct (fastcache.entries (cache c) !! key) as [v|]; cbn -[copy make].
  - rewrite copy_make. reflexivity.
  - reflexivity.
Qed.

Lemma Cache_Get_cache c key : cache (snd (Cache_Get c key)) = cache c.
Proof.
  unfold Cache_Get. destruct (Pool_Get (pool c)) as [buf p].
  destruct (fastcache.Get (cache c) (Some []) key); reflexivity.
Qed.

Lemma Cache_Has_result c key :
  fst (Cache_Has c key) = bool_decide (is_Some (stored c key)).
Proof. reflexivity. Qed.

Lemma stored_Set_fits c key v :
  storable key (len v) ->
  stored (snd (Cache_Set c key v)) key = Some (bytes_of v).
Proof.
  intros Hfit. apply fits_storable in Hfit.
  unfold stored, Cache_Set, fastcache.Set_. cbn. rewrite Hfit. cbn.
  apply lookup_insert_eq.
Qed.

Lemma stored_Set_dropped c key v k :
  ¬ storable key (len v) ->
  stored (snd (Cache_Set c key v)) k = stored c k.
Proof.
  intros Hbig. unfold stored, Cache_Set, fastcache.Set_. cbn.
  destruct (fastcache.fits key (bytes_of v)) eqn:Hfit; [|reflexivity].
  apply fits_storable in Hfit. contradiction.
Qed.

Lemma stored_Delete c key : stored (snd (Cache_Delete c key)) key = None.
Proof. unfold stored, Cache_Delete, fastcache.Del. cbn. apply lookup_delete_eq. Qed.

Lemma stored_NewCache maxBytes key : stored (NewCache maxBytes) key = None.
Proof. reflexivity. Qed.

(** ** The TTL facade over the plain facade *)

Lemma CacheWithTTL_Get_run (c : CacheWithTTL Cache) now key :
  CacheWithTTL_Get c now key
  = Ret (read_envelope now (default [] (stored (embedded c) key)),
         mkTTL (snd (Cache_Get (embedded c) key))).
Proof.
  unfold CacheWithTTL_Get. cbn [ICache_Get Cache_ICache].
  pose proof (Cache_Get_result (embedded c) key) as Hres.
  destruct (Cache_Get (embedded c) key) as [raw i]. cbn [fst snd] in *. subst raw.
  rewrite unwrapCacheWithTTL_cases. cbn [mbind outcome_bind bytes_of].
  unfold read_envelope, len, bytes_of.
  destruct ((length (default [] (stored (embedded c) key)) <? 8)%nat
            || (stamp (default [] (stored (embedded c) key)) <=? UnixMilli now));
    reflexivity.
Qed.

Lemma CacheWithTTL_Has_run (c : CacheWithTTL Cache) now key :
  CacheWithTTL_Has c now key
  = Ret (bool_decide (is_Some (read_envelope now (default [] (stored (embedded c) key)))),
         mkTTL (snd (Cache_Get (embedded c) key))).
Proof.
  unfold CacheWithTTL_Has. cbn [ICache_Get Cache_ICache].
  pose proof (Cache_Get_result (embedded c) key) as Hres.
  destruct (Cache_Get (embedded c) key) as [raw i]. cbn [fst snd] in *. subst raw.
  rewrite unwrapCacheWithTTL_cases. cbn [mbind outcome_bind bytes_of].
  unfold read_envelope, len, bytes_of.
  destruct ((length (default [] (stored (embedded c) key)) <? 8)%nat
            || (stamp (default [] (stored (embedded c) key)) <=? UnixMilli now));
    reflexivity.
Qed.

Lemma CacheWithTTL_Set_run (c : CacheWithTTL Cache) now key value ttl :
  CacheWithTTL_Set c now key value ttl
  = Ret (None,
         mkTTL (snd (Cache_Set (embedded c) key
                       (Some (envelope (expireAt now ttl) (bytes_of value)))))).
Proof.
  unfold CacheWithTTL_Set. rewrite wrapCacheWithTTL_envelope. reflexivity.
Qed.

Lemma length_envelope e payload :
  length (envelope e payload) = (8 + length payload)%nat.
Proof. unfold envelope. rewrite length_app, length_big_endian. reflexivity. Qed.

Lemma read_envelope_envelope now e payload :
  read_envelope now (envelope e payload)
  = if to_int64 e <=? UnixMilli now then None else Some payload.
Proof.
  unfold read_envelope. rewrite stamp_envelope, length_envelope.
  assert (Hlen : (8 + length payload <? 8)%nat = false) by (apply Nat.ltb_ge; lia).
  rewrite Hlen. cbn [orb].
  destruct (to_int64 e <=? UnixMilli now); [reflexivity|].
  unfold envelope. rewrite <- (length_big_endian 8 (to_uint64 e)) at 1.
  rewrite drop_app_length. reflexivity.
Qed.

Lemma expireAt_int64 now ttl : to_int64 (expireAt now ttl) = expireAt now ttl.
Proof. apply to_int64_small, to_int64_range. Qed.

Lemma unwrapCacheWithTTL_envelope now e payload :
  unwrapCacheWithTTL now (Some (envelope e payload))
  = Ret (if to_int64 e <=? UnixMilli now then (None, false)
         else (Some payload, true)).
Proof.
  rewrite unwrapCacheWithTTL_cases. cbn [bytes_of]. unfold len. cbn [bytes_of].
  rewrite stamp_envelope, length_envelope.
  assert (Hlen : (8 + length payload <? 8)%nat = false) by (apply Nat.ltb_ge; lia).
  rewrite Hlen. cbn [orb].
  destruct (to_int64 e <=? UnixMilli now); [reflexivity|].
  unfold envelope. rewrite <- (length_big_endian 8 (to_uint64 e)) at 1.
  rewrite drop_app_length. reflexivity.
Qed.

(** What a read finds right after a write of a storable entry. *)
Lemma read_after_Set (i : Cache) key value t0 ttl t1 :
  storable key (8 + len value) ->
  read_envelope t1
    (default []
       (stored (snd (Cache_Set i key
                       (Some (envelope (expireAt t0 ttl) (bytes_of value))))) key))
  = if expireAt t0 ttl <=? UnixMilli t1 then None else Some (bytes_of value).
Proof.
  intros Hfit. rewrite stored_Set_fits.
  - cbn [from_option id bytes_of]. rewrite read_envelope_envelope, expireAt_int64. reflexivity.
  - unfold len. cbn [bytes_of]. rewrite length_envelope. exact Hfit.
Qed.

(** * The claims *)

(** C1, as the code runs.  On a key the store does not hold (a fresh cache,
    or any cache right after [Delete] of that key) [Has] is false, as
    claimed, but [Cache.Get] hands back the empty non-nil slice and not
    nil: the scratch slice [( *buf)[:0]] it passes to the store is non-nil,
    the store gives it back untouched on a miss, and so the [dst == nil]
    test never fires. *)
Theorem Cache_Get_miss_is_empty_slice (maxBytes : Z) (c : Cache) (key : string) :
  fst (Cache_Get (NewCache maxBytes) key) = Some []
  /\ fst (Cache_Has (NewCache maxBytes) key) = false
  /\ fst (Cache_Get (snd (Cache_Delete c key)) key) = Some []
  /\ fst (Cache_Has (snd (Cache_Delete c key)) key) = false.
Proof.
  rewrite !Cache_Get_result, !Cache_Has_result.
  rewrite stored_NewCache, stored_Delete. cbn [from_option id].
  repeat split; holds_nothing.
Qed.

(** C2.  For every payload (nil included) and every ttl of any sign, Wrap
    does not panic and returns the eight big-endian bytes of
    [uint64(expireAt)], where [expireAt] is the millisecond reading of
    [now + ttl], followed by the payload unchanged; the result is
    [8 + len(payload)] bytes long.  For a clock reading [UnixNano] can
    represent and an [int64] ttl, [expireAt] is [now + ttl] in whole
    milliseconds, rounded down, with no wrap-around. *)
Theorem wrapCacheWithTTL_layout (now : Time) (payload : slice) (ttl : Duration) :
  exists env : list byte,
    wrapCacheWithTTL now payload ttl = Ret (Some env)
    /\ env = big_endian 8 (to_uint64 (expireAt now ttl)) ++ bytes_of payload
    /\ take 8 env = big_endian 8 (to_uint64 (expireAt now ttl))
    /\ drop 8 env = bytes_of payload
    /\ length env = (8 + len payload)%nat
    /\ (wall_ok now -> is_int64 ttl -> expireAt now ttl = (now + ttl) / 1000000).
Proof.
  exists (envelope (expireAt now ttl) (bytes_of payload)).
  split; [apply wrapCacheWithTTL_envelope|].
  unfold envelope. split; [reflexivity|].
  split.
  { rewrite <- (length_big_endian 8 (to_uint64 (expireAt now ttl))) at 1.
    apply take_app_length. }
  split.
  { rewrite <- (length_big_endian 8 (to_uint64 (expireAt now ttl))) at 1.
    apply drop_app_length. }
  split.
  { rewrite length_app, length_big_endian. reflexivity. }
  intros Hnow Httl. unfold expireAt, Time_Add.
  apply UnixMilli_exact, wall_ok_millis; assumption.
Qed.

(** C3.  For every byte sequence, nil and short ones included, Unwrap
    returns without a panic; it returns [(nil, false)] exactly when the
    input is shorter than 8 bytes or the clock's millisecond reading is at
    or past the stamp (equality counts as expired), and otherwise
    [(envelope[8:], true)]. *)
Theorem unwrapCacheWithTTL_total (now : Time) (data : slice) :
  exists (payload : slice) (valid : bool),
    unwrapCacheWithTTL now data = Ret (payload, valid)
    /\ (valid = false
        <-> (len data < 8)%nat \/ stamp (bytes_of data) <= UnixMilli now)
    /\ (valid = false -> payload = None)
    /\ (valid = true -> payload = Some (drop 8 (bytes_of data))).
Proof.
  rewrite unwrapCacheWithTTL_cases.
  destruct (Nat.ltb_spec (len data) 8) as [Hshort|Hlong].
  - exists None, false. cbn [orb]. repeat split; auto; discriminate.
  - cbn [orb].
    destruct (Z.leb_spec (stamp (bytes_of data)) (UnixMilli now)) as [Hexp|Hlive].
    + exists None, false. repeat split; auto; discriminate.
    + exists (Some (drop 8 (bytes_of data))), true.
      repeat split; auto; try discriminate. intros [Hs|He]; lia.
Qed.

(** C4, refuted as stated, at two inputs.  (1) A write 0.9 ms into a
    millisecond with ttl 100 ms stamps the envelope with that millisecond
    plus 100; a read 99.6 ms later, before [setTime + ttl], already has a
    reading equal to the stamp and finds the key expired.  (2) A value of
    65536 bytes makes an envelope the store drops, and a read well before
    the expiry finds nothing. *)
Lemma CacheWithTTL_Get_before_expiry_can_miss :
  (let t0 := 1700000000000900000 in
   let ttl := 100 * Millisecond in
   let t1 := 1700000000100500000 in
   0 < ttl /\ t0 <= t1 < t0 + ttl
   /\ exists c1 c2,
        CacheWithTTL_Set (NewCacheWithTTL 1048576) t0 "k" (Some [x2a]) ttl
        = Ret (None, c1)
        /\ CacheWithTTL_Get c1 t1 "k" = Ret (None, c2))
  /\
  (let V := replicate (Z.to_nat 65536) x00 in
   let t0 := 1700000000000000000 in
   let ttl := Second in
   let t1 := 1700000000000000000 + Millisecond in
   0 < ttl /\ t0 <= t1 < t0 + ttl /\ UnixMilli t1 < expireAt t0 ttl
   /\ exists c1 c2,
        CacheWithTTL_Set (NewCacheWithTTL 1048576) t0 "k" (Some V) ttl
        = Ret (None, c1)
        /\ CacheWithTTL_Get c1 t1 "k" = Ret (None, c2)).
Proof.
  split.
  - intros t0 ttl t1.
    split; [reflexivity|]. split; [subst t0 ttl t1; unfold Millisecond; lia|].
    rewrite CacheWithTTL_Set_run. eexists _, _. split; [reflexivity|].
    rewrite CacheWithTTL_Get_run. cbn [embedded].
    rewrite read_after_Set by (vm_compute; reflexivity).
    replace (expireAt t0 ttl <=? UnixMilli t1) with true by (vm_compute; reflexivity).
    reflexivity.
  - intros V t0 ttl t1.
    split; [reflexivity|].
    split; [subst t0 ttl t1; unfold Second, Millisecond; lia|].
    split; [vm_compute; reflexivity|].
    rewrite CacheWithTTL_Set_run. eexists _, _. split; [reflexivity|].
    rewrite CacheWithTTL_Get_run. cbn [embedded].
    rewrite stored_Set_dropped.
    + reflexivity.
    + unfold storable, len, V. cbn [bytes_of String.length].
      rewrite length_envelope, length_replicate. lia.
Qed.

(** C4, amended.  For every state, key, ttl and every value whose envelope
    is within the store's per-item ceiling, [Set] at clock [t0] succeeds
    and then [Get] at clock [t1] returns exactly the value's bytes when the
    millisecond reading of [t1] is strictly below
    [expireAt = UnixMilli(t0 + ttl)], and nil when it is at or above it.
    Hence, for clocks [UnixNano] can represent, [Get] at or after
    [t0 + ttl] returns nil, and after a [Set] with zero or negative ttl
    every later [Get] returns nil. *)
Theorem CacheWithTTL_Set_then_Get (c : CacheWithTTL Cache) (key : string)
    (value : slice) (ttl : Duration) (t0 t1 : Time) :
  storable key (8 + len value) ->
  exists c1,
    CacheWithTTL_Set c t0 key value ttl = Ret (None, c1)
    /\ (UnixMilli t1 < expireAt t0 ttl ->
        exists c2, CacheWithTTL_Get c1 t1 key = Ret (Some (bytes_of value), c2))
    /\ (expireAt t0 ttl <= UnixMilli t1 ->
        exists c2, CacheWithTTL_Get c1 t1 key = Ret (None, c2))
    /\ (wall_ok t0 -> wall_ok t1 -> is_int64 ttl -> t0 + ttl <= t1 ->
        exists c2, CacheWithTTL_Get c1 t1 key = Ret (None, c2))
    /\ (wall_ok t0 -> wall_ok t1 -> is_int64 ttl -> ttl <= 0 -> t0 <= t1 ->
        exists c2, CacheWithTTL_Get c1 t1 key = Ret (None, c2)).
Proof.
  intros Hfit. rewrite CacheWithTTL_Set_run. eexists. split; [reflexivity|].
  rewrite CacheWithTTL_Get_run. cbn [embedded].
  rewrite (read_after_Set (embedded c) key value t0 ttl t1 Hfit).
  assert (Hexpired : expireAt t0 ttl <= UnixMilli t1 ->
            exists c2 : CacheWithTTL Cache,
              Ret ((if expireAt t0 ttl <=? UnixMilli t1 then None
                    else Some (bytes_of value)), mkTTL (snd (Cache_Get
                      (snd (Cache_Set (embedded c) key
                         (Some (envelope (expireAt t0 ttl) (bytes_of value))))) key)))
              = Ret (None, c2)).
  { intros Hle. apply Z.leb_le in Hle. rewrite Hle. eexists. reflexivity. }
  split.
  { intros Hlive. apply Z.leb_gt in Hlive. rewrite Hlive. eexists. reflexivity. }
  split; [exact Hexpired|].
  split.
  - intros H0 H1 Hd Hle. apply Hexpired, expireAt_reached; assumption.
  - intros H0 H1 Hd Hneg Hle. apply Hexpired, expireAt_reached; try assumption. lia.
Qed.

(** C4 at one input: ttl 100 ms, read 99 ms after the write. *)
Lemma CacheWithTTL_Set_then_Get_100ms :
  storable "k" (8 + len (Some [x2a]))
  /\ exists c1 c2,
       CacheWithTTL_Set (NewCacheWithTTL 1048576) 1700000000000900000 "k"
         (Some [x2a]) (100 * Millisecond) = Ret (None, c1)
       /\ CacheWithTTL_Get c1 1700000000099900000 "k" = Ret (Some [x2a], c2).
Proof.
  assert (Hfit : storable "k" (8 + len (Some [x2a]))) by (vm_compute; reflexivity).
  split; [exact Hfit|].
  destruct (CacheWithTTL_Set_then_Get (NewCacheWithTTL 1048576) "k" (Some [x2a])
              (100 * Millisecond) 1700000000000900000 1700000000099900000 Hfit)
    as (c1 & Hset & Hlive & _).
  destruct (Hlive ltac:(vm_compute; reflexivity)) as (c2 & Hget).
  exists c1, c2. split; [exact Hset|exact Hget].
Defined.

(** C5, refuted as stated.  A value of 64KB is more than the store keeps
    in one entry; the store drops it without a word, and the read that
    follows finds nothing. *)
Lemma Cache_roundtrip_fails_for_oversize_value :
  let V := replicate (Z.to_nat 65536) x00 in
  let c := snd (Cache_Set (NewCache 1048576) "k" (Some V)) in
  fst (Cache_Get c "k") <> Some V /\ fst (Cache_Has c "k") = false.
Proof.
  intros V c.
  assert (Hbig : ¬ storable "k" (len (Some V))).
  { unfold storable, len, V. cbn [bytes_of String.length].
    rewrite length_replicate. lia. }
  subst c. rewrite Cache_Get_result, Cache_Has_result.
  rewrite (stored_Set_dropped _ _ _ _ Hbig), stored_NewCache. cbn [from_option id].
  split.
  - intros Heq. injection Heq as Heq. apply (f_equal length) in Heq.
    unfold V in Heq. rewrite length_replicate in Heq. cbn [length] in Heq. lia.
  - holds_nothing.
Qed.

(** C5, amended.  For every key and every value (nil, empty or not) whose
    entry is within the store's per-item ceiling, [Set] followed at once by
    [Get] returns a slice holding exactly the value's bytes -- the
    zero-length value comes back as a zero-length non-nil slice -- and [Has]
    is true. *)
Theorem Cache_Set_Get_roundtrip (c : Cache) (key : string) (value : slice) :
  storable key (len value) ->
  fst (Cache_Get (snd (Cache_Set c key value)) key) = Some (bytes_of value)
  /\ fst (Cache_Has (snd (Cache_Set c key value)) key) = true.
Proof.
  intros Hfit. rewrite Cache_Get_result, Cache_Has_result.
  rewrite (stored_Set_fits _ _ _ Hfit). cbn [from_option id].
  split; [reflexivity|]. apply bool_decide_eq_true. eexists. reflexivity.
Qed.

(** C5 at one input: the zero-length value under the key "k" on a fresh
    cache. *)
Lemma Cache_Set_Get_roundtrip_empty_value :
  storable "k" (len (Some []))
  /\ fst (Cache_Get (snd (Cache_Set (NewCache 1048576) "k" (Some []))) "k") = Some []
  /\ fst (Cache_Has (snd (Cache_Set (NewCache 1048576) "k" (Some []))) "k") = true.
Proof.
  assert (Hfit : storable "k" (len (Some []))) by (vm_compute; reflexivity).
  split; [exact Hfit|].
  exact (Cache_Set_Get_roundtrip (NewCache 1048576) "k" (Some []) Hfit).
Defined.

(** C6.  On the TTL facade, for every state, key and clock reading, [Has]
    and [Get] both return without a panic and [Has] is true exactly when
    [Get] is not nil.  In particular, when the key holds an envelope whose
    stamp the clock has reached, [Has] is false. *)
Theorem CacheWithTTL_Has_iff_Get (c : CacheWithTTL Cache) (now : Time) (key : string) :
  exists (b : bool) (r : slice) (c1 c2 : CacheWithTTL Cache),
    CacheWithTTL_Has c now key = Ret (b, c1)
    /\ CacheWithTTL_Get c now key = Ret (r, c2)
    /\ (b = true <-> r <> None)
    /\ (forall env, stored (embedded c) key = Some env ->
          stamp env <= UnixMilli now -> b = false).
Proof.
  rewrite CacheWithTTL_Has_run, CacheWithTTL_Get_run.
  eexists _, _, _, _. split; [reflexivity|]. split; [reflexivity|].
  split.
  - rewrite bool_decide_eq_true.
    destruct (read_envelope now _) as [p|]; split.
    + discriminate.
    + intros _. eexists. reflexivity.
    + intros [x Hx]. discriminate Hx.
    + intros Hne. contradiction.
  - intros env Henv Hpast. rewrite Henv. cbn [from_option id].
    apply bool_decide_eq_false. unfold read_envelope.
    apply Z.leb_le in Hpast. rewrite Hpast, orb_true_r.
    intros [x Hx]. discriminate Hx.
Qed.

(** C7, refuted as stated, at two inputs.  (1) The second write lands
    0.9 ms into a millisecond with ttl 200 ms; a read 199.6 ms after it,
    past the first expiry and before [t2 + ttl2], has a reading equal to
    the new stamp and finds the key expired.  (2) With a value of 65536
    bytes both writes are dropped by the store and the read finds nothing. *)
Lemma CacheWithTTL_overwrite_then_Get_can_miss :
  (let t1 := 1700000000000000000 in
   let ttl1 := 50 * Millisecond in
   let t2 := 1700000000030900000 in
   let ttl2 := 200 * Millisecond in
   let t := 1700000000230500000 in
   t1 < t2 /\ t2 < t1 + ttl1 /\ t1 + ttl1 < t < t2 + ttl2
   /\ exists c1 c2 c3,
        CacheWithTTL_Set (NewCacheWithTTL 1048576) t1 "k" (Some [x2a]) ttl1
        = Ret (None, c1)
        /\ CacheWithTTL_Set c1 t2 "k" (Some [x2a]) ttl2 = Ret (None, c2)
        /\ CacheWithTTL_Get c2 t "k" = Ret (None, c3))
  /\
  (let V := replicate (Z.to_nat 65536) x00 in
   let t1 := 1700000000000000000 in
   let ttl1 := 50 * Millisecond in
   let t2 := 1700000000030000000 in
   let ttl2 := 200 * Millisecond in
   let t := 1700000000060000000 in
   t1 < t2 /\ t2 < t1 + ttl1 /\ t1 + ttl1 < t < t2 + ttl2
   /\ expireAt t1 ttl1 <= UnixMilli t < expireAt t2 ttl2
   /\ exists c1 c2 c3,
        CacheWithTTL_Set (NewCacheWithTTL 1048576) t1 "k" (Some V) ttl1
        = Ret (None, c1)
        /\ CacheWithTTL_Set c1 t2 "k" (Some V) ttl2 = Ret (None, c2)
        /\ CacheWithTTL_Get c2 t "k" = Ret (None, c3)).
Proof.
  split.
  - intros t1 ttl1 t2 ttl2 t.
    split; [reflexivity|]. split; [reflexivity|].
    split; [subst t1 ttl1 t2 ttl2 t; unfold Millisecond; lia|].
    rewrite CacheWithTTL_Set_run. eexists _, _, _. split; [reflexivity|].
    rewrite CacheWithTTL_Set_run. split; [reflexivity|].
    rewrite CacheWithTTL_Get_run. cbn [embedded].
    rewrite (read_after_Set _ "k" (Some [x2a]) t2 ttl2 t) by (vm_compute; reflexivity).
    replace (expireAt t2 ttl2 <=? UnixMilli t) with true by (vm_compute; reflexivity).
    reflexivity.
  - intros V t1 ttl1 t2 ttl2 t.
    split; [reflexivity|]. split; [reflexivity|].
    split; [subst t1 ttl1 t2 ttl2 t; unfold Millisecond; lia|].
    split; [vm_compute; split; [discriminate|reflexivity]|].
    assert (Hbig : forall e, ¬ storable "k" (len (Some (envelope e (bytes_of (Some V)))))).
    { intros e. unfold storable, len, V. cbn [bytes_of String.length].
      rewrite length_envelope, length_replicate. lia. }
    rewrite CacheWithTTL_Set_run. eexists _, _, _. split; [reflexivity|].
    rewrite CacheWithTTL_Set_run. split; [reflexivity|].
    rewrite CacheWithTTL_Get_run. cbn [embedded].
    rewrite !stored_Set_dropped by apply Hbig. reflexivity.
Qed.

(** C7, amended.  For every state, key, pair of ttls and clocks, and every
    value whose envelope is within the store's per-item ceiling: after
    [Set] at [t1] with [ttl1] and [Set] at [t2] with [ttl2], the key holds
    one envelope, stamped [UnixMilli(t2 + ttl2)] -- the second write's own
    stamp, whatever the first was -- so [Get] returns exactly the value's
    bytes at every clock whose millisecond reading is strictly below that
    stamp, the first expiry having passed or not, and nil from that stamp
    on. *)
Theorem CacheWithTTL_Set_resets_expiry (c : CacheWithTTL Cache) (key : string)
    (value : slice) (ttl1 ttl2 : Duration) (t1 t2 t : Time) :
  storable key (8 + len value) ->
  exists c1 c2,
    CacheWithTTL_Set c t1 key value ttl1 = Ret (None, c1)
    /\ CacheWithTTL_Set c1 t2 key value ttl2 = Ret (None, c2)
    /\ stored (embedded c2) key
       = Some (envelope (expireAt t2 ttl2) (bytes_of value))
    /\ stamp <$> stored (embedded c2) key = Some (expireAt t2 ttl2)
    /\ (UnixMilli t < expireAt t2 ttl2 ->
        exists c3, CacheWithTTL_Get c2 t key = Ret (Some (bytes_of value), c3))
    /\ (expireAt t2 ttl2 <= UnixMilli t ->
        exists c3, CacheWithTTL_Get c2 t key = Ret (None, c3)).
Proof.
  intros Hfit. rewrite CacheWithTTL_Set_run. eexists _, _. split; [reflexivity|].
  rewrite CacheWithTTL_Set_run. split; [reflexivity|]. cbn [embedded].
  assert (Hfit' : storable key
            (len (Some (envelope (expireAt t2 ttl2) (bytes_of value))))).
  { unfold len. cbn [bytes_of]. rewrite length_envelope. exact Hfit. }
  split; [apply stored_Set_fits, Hfit'|].
  split.
  { rewrite (stored_Set_fits _ _ _ Hfit'). cbn [fmap option_fmap option_map bytes_of].
    rewrite stamp_envelope, expireAt_int64. reflexivity. }
  rewrite CacheWithTTL_Get_run. cbn [embedded].
  rewrite (stored_Set_fits _ _ _ Hfit'). cbn [from_option id bytes_of].
  rewrite read_envelope_envelope, expireAt_int64.
  split.
  - intros Hlive. apply Z.leb_gt in Hlive. rewrite Hlive. eexists. reflexivity.
  - intros Hpast. apply Z.leb_le in Hpast. rewrite Hpast. eexists. reflexivity.
Qed.

(** C7 at one input: ttl 50 ms, rewritten 30 ms later with ttl 200 ms, read
    60 ms after the first write, when the first expiry has passed. *)
Lemma CacheWithTTL_Set_resets_expiry_50_then_200ms :
  storable "k" (8 + len (Some [x2a]))
  /\ expireAt 1700000000000000000 (50 * Millisecond) <= UnixMilli 1700000000060000000
  /\ exists c1 c2 c3,
       CacheWithTTL_Set (NewCacheWithTTL 1048576) 1700000000000000000 "k"
         (Some [x2a]) (50 * Millisecond) = Ret (None, c1)
       /\ CacheWithTTL_Set c1 1700000000030000000 "k" (Some [x2a])
            (200 * Millisecond) = Ret (None, c2)
       /\ CacheWithTTL_Get c2 1700000000060000000 "k" = Ret (Some [x2a], c3).
Proof.
  assert (Hfit : storable "k" (8 + len (Some [x2a]))) by (vm_compute; reflexivity).
  split; [exact Hfit|].
  split; [vm_compute; discriminate|].
  destruct (CacheWithTTL_Set_resets_expiry (NewCacheWithTTL 1048576) "k"
              (Some [x2a]) (50 * Millisecond) (200 * Millisecond)
              1700000000000000000 1700000000030000000 1700000000060000000 Hfit)
    as (c1 & c2 & Hset1 & Hset2 & _ & _ & Hlive & _).
  destruct (Hlive ltac:(vm_compute; reflexivity)) as (c3 & Hget).
  exists c1, c2, c3. repeat split; assumption.
Defined.

(** C8.  No read changes the store.  After [Get] or [Has] on the plain
    facade the store is the one before the call; the TTL facade's [Get] and
    [Has] return without a panic and leave the store as it was, so every
    key still holds what it held.  In particular a read that finds a
    malformed or expired envelope reports absent and that envelope is
    still there afterwards. *)
Theorem reads_leave_the_store_untouched (c : Cache) (now : Time) (key : string) :
  cache (snd (Cache_Get c key)) = cache c
  /\ cache (snd (Cache_Has c key)) = cache c
  /\ (exists r c', CacheWithTTL_Get (mkTTL c) now key = Ret (r, c')
                   /\ cache (embedded c') = cache c)
  /\ (exists b c', CacheWithTTL_Has (mkTTL c) now key = Ret (b, c')
                   /\ cache (embedded c') = cache c)
  /\ (forall env, stored c key = Some env -> read_envelope now env = None ->
        exists c', CacheWithTTL_Get (mkTTL c) now key = Ret (None, c')
                   /\ stored (embedded c') key = Some env).
Proof.
  split; [apply Cache_Get_cache|].
  split; [reflexivity|].
  rewrite CacheWithTTL_Get_run, CacheWithTTL_Has_run. cbn [embedded].
  split; [eexists _, _; split; [reflexivity|apply Cache_Get_cache]|].
  split; [eexists _, _; split; [reflexivity|apply Cache_Get_cache]|].
  intros env Henv Hmiss. rewrite Henv. cbn [from_option id]. rewrite Hmiss.
  eexists. split; [reflexivity|].
  cbn [embedded]. unfold stored in *. rewrite Cache_Get_cache. exact Henv.
Qed.

(** C9.  [Set], [Delete] and [Close] return the nil error on both
    facades, whatever the state, key, value (nil and empty included), ttl
    and clock; the TTL facade's [Set] does so without a panic. *)
Theorem writes_return_nil_error (c : Cache) (now : Time) (key : string)
    (value : slice) (ttl : Duration) :
  fst (Cache_Set c key value) = None
  /\ fst (Cache_Delete c key) = None
  /\ fst (Cache_Close c) = None
  /\ (exists c', CacheWithTTL_Set (mkTTL c) now key value ttl = Ret (None, c'))
  /\ fst (CacheWithTTL_Delete (mkTTL c) key) = None
  /\ fst (CacheWithTTL_Close (mkTTL c)) = None.
Proof.
  repeat split; try reflexivity.
  rewrite CacheWithTTL_Set_run. eexists. reflexivity.
Qed.

(** C10.  The stamp survives the two casts.  For every [int64] expiry [e],
    [int64(uint64(e))] is [e] again (and [uint64(int64(u))] is [u] for every
    [uint64] [u]); the eight bytes [PutUint64] writes for [uint64(e)] -- the
    bytes Wrap puts in front of the payload whenever its expiry is [e] --
    decode to [uint64(e)], which reads back as [e]; so Unwrap compares the
    clock with [e] itself, and an envelope whose expiry is negative is
    expired at every clock reading from the epoch on. *)
Theorem expireAt_survives_the_casts (e : Z) (payload : list byte) (now : Time) :
  is_int64 e ->
  to_int64 (to_uint64 e) = e
  /\ (forall u, is_uint64 u -> to_uint64 (to_int64 u) = u)
  /\ exists enc : list byte,
       PutUint64 (make 8) (to_uint64 e) = Ret enc
       /\ (forall t0 ttl, expireAt t0 ttl = e ->
           wrapCacheWithTTL t0 (Some payload) ttl = Ret (Some (enc ++ payload)))
       /\ Uint64 (enc ++ payload) = Ret (to_uint64 e)
       /\ stamp (enc ++ payload) = e
       /\ unwrapCacheWithTTL now (Some (enc ++ payload))
          = Ret (if e <=? UnixMilli now then (None, false) else (Some payload, true))
       /\ (e < 0 -> 0 <= UnixMilli now ->
           unwrapCacheWithTTL now (Some (enc ++ payload)) = Ret (None, false)).
Proof.
  intros He.
  assert (Hcast : to_int64 (to_uint64 e) = e).
  { rewrite to_int64_to_uint64. apply to_int64_small, He. }
  split; [exact Hcast|].
  split.
  { intros u Hu. rewrite to_uint64_to_int64. apply to_uint64_small, Hu. }
  exists (big_endian 8 (to_uint64 e)).
  split; [apply PutUint64_big_endian; reflexivity|].
  split.
  { intros t0 ttl Hstamp. rewrite wrapCacheWithTTL_envelope, Hstamp. reflexivity. }
  assert (Hunwrap : unwrapCacheWithTTL now (Some (big_endian 8 (to_uint64 e) ++ payload))
                    = Ret (if e <=? UnixMilli now then (None, false)
                           else (Some payload, true))).
  { fold (envelope e payload). rewrite unwrapCacheWithTTL_envelope.
    rewrite (to_int64_small e He). reflexivity. }
  split.
  { rewrite Uint64_be_value by (rewrite length_app, length_big_endian; lia).
    rewrite <- (length_big_endian 8 (to_uint64 e)) at 1.
    rewrite take_app_length, be_value_big_endian.
    change (256 ^ Z.of_nat 8) with two_64. fold (to_uint64 (to_uint64 e)).
    rewrite (to_uint64_small (to_uint64 e)); [reflexivity|].
    unfold is_uint64, to_uint64, two_64. apply Z.mod_pos_bound. lia. }
  split.
  { fold (envelope e payload). rewrite stamp_envelope. apply to_int64_small, He. }
  split; [exact Hunwrap|].
  intros Hneg Hnow. rewrite Hunwrap.
  destruct (Z.leb_spec e (UnixMilli now)); [reflexivity|lia].
Qed.

(** C10 at one input: a write in November 2023 with a ttl of minus 53 years
    and some, whose expiry is one second before the epoch, read a
    nanosecond later. *)
Lemma expireAt_survives_the_casts_minus_one_second :
  is_int64 (-1000)
  /\ expireAt 1700000000000000000 (-1700000001000000000) = -1000
  /\ exists env,
       wrapCacheWithTTL 1700000000000000000 (Some [x2a]) (-1700000001000000000)
       = Ret (Some env)
       /\ stamp env = -1000
       /\ unwrapCacheWithTTL 1700000000000000001 (Some env) = Ret (None, false).
Proof.
  assert (He : is_int64 (-1000)) by (unfold is_int64, two_63; lia).
  split; [exact He|].
  assert (Hat : expireAt 1700000000000000000 (-1700000001000000000) = -1000)
    by (vm_compute; reflexivity).
  split; [exact Hat|].
  destruct (expireAt_survives_the_casts (-1000) [x2a] 1700000000000000001 He)
    as (_ & _ & enc & _ & Hwrap & _ & Hstamp & _ & Hexpired).
  exists (enc ++ [x2a]).
  split; [exact (Hwrap _ _ Hat)|].
  split; [exact Hstamp|].
  apply Hexpired; vm_compute; [reflexivity|discriminate].
Defined.

(** * Further properties of the code *)

(** ** What each call does to the store *)

Lemma stored_Set_other c key v k :
  key ≠ k -> stored (snd (Cache_Set c key v)) k = stored c k.
Proof.
  intros Hne. unfold stored, Cache_Set, fastcache.Set_. cbn [snd cache].
  destruct (fastcache.fits key (bytes_of v)); [|reflexivity].
  cbn [fastcache.entries]. apply lookup_insert_ne, Hne.
Qed.

Lemma stored_Delete_other c key k :
  key ≠ k -> stored (snd (Cache_Delete c key)) k = stored c k.
Proof.
  intros Hne. unfold stored, Cache_Delete, fastcache.Del.
  cbn [snd cache fastcache.entries]. apply lookup_delete_ne, Hne.
Qed.

Lemma stored_Close c k : stored (snd (Cache_Close c)) k = None.
Proof. reflexivity. Qed.

Lemma stored_Get c key k : stored (snd (Cache_Get c key)) k = stored c k.
Proof. unfold stored. rewrite Cache_Get_cache. reflexivity. Qed.

Lemma Cache_eta (c : Cache) : {| pool := pool c; cache := cache c |} = c.
Proof. destruct c. reflexivity. Qed.

Lemma oversize_not_storable key n :
  65536 <= 4 + Z.of_nat (String.length key) + Z.of_nat n -> ¬ storable key n.
Proof. unfold storable. lia. Qed.

Lemma Cache_Set_dropped c key value :
  ¬ storable key (len value) -> Cache_Set c key value = (None, c).
Proof.
  intros Hbig. unfold Cache_Set, fastcache.Set_.
  destruct (fastcache.fits key (bytes_of value)) eqn:Hfit.
  - apply fits_storable in Hfit. contradiction.
  - rewrite Cache_eta. reflexivity.
Qed.



(** X2.  A [Set] whose entry reaches the per-item ceiling (header, key and
    value together 64KB or more) returns the nil error and changes nothing
    at all: the facade is the one before the call, so the key keeps
    whatever it held and a following [Get] sees the old value. *)
Theorem Cache_Set_oversize_changes_nothing (c : Cache) (key : string)
    (value : slice) :
  65536 <= 4 + Z.of_nat (String.length key) + Z.of_nat (len value) ->
  Cache_Set c key value = (None, c)
  /\ fst (Cache_Get (snd (Cache_Set c key value)) key) = fst (Cache_Get c key)
  /\ fst (Cache_Has (snd (Cache_Set c key value)) key) = fst (Cache_Has c key).
Proof.
  intros Hbig. apply oversize_not_storable in Hbig.
  rewrite (Cache_Set_dropped c key value Hbig). repeat split.
Qed.

(** X2 at one input: a 64KB value over a key that holds one byte. *)
Lemma Cache_Set_oversize_changes_nothing_64KB :
  let c := snd (Cache_Set (NewCache 1048576) "k" (Some [x2a])) in
  let big := Some (replicate (Z.to_nat 65536) x00) in
  65536 <= 4 + Z.of_nat (String.length "k") + Z.of_nat (len big)
  /\ Cache_Set c "k" big = (None, c)
  /\ fst (Cache_Get (snd (Cache_Set c "k" big)) "k") = Some [x2a].
Proof.
  intros c big.
  assert (Hbig : 65536 <= 4 + Z.of_nat (String.length "k") + Z.of_nat (len big)).
  { unfold len, big. cbn [bytes_of String.length]. rewrite length_replicate. lia. }
  split; [exact Hbig|].
  destruct (Cache_Set_oversize_changes_nothing c "k" big Hbig) as (Hset & Hget & _).
  split; [exact Hset|]. rewrite Hget. reflexivity.
Defined.




(** X5.  [Close] empties the store and nothing else: afterwards no key is
    held, so for every key [Has] is false and [Get] returns the empty
    slice, and on the TTL facade [Get] returns nil and [Has] false at every
    clock; the pool of scratch buffers is kept, and the cache stays usable
    (a storable [Set] after [Close] is read back). *)
Theorem Cache_Close_empties_the_store (c : Cache) (now : Time) (key : string) :
  fst (Cache_Close c) = None
  /\ pool (snd (Cache_Close c)) = pool c
  /\ stored (snd (Cache_Close c)) key = None
  /\ fst (Cache_Has (snd (Cache_Close c)) key) = false
  /\ fst (Cache_Get (snd (Cache_Close c)) key) = Some []
  /\ (exists c', CacheWithTTL_Get (snd (CacheWithTTL_Close (mkTTL c))) now key
                 = Ret (None, c'))
  /\ (exists c', CacheWithTTL_Has (snd (CacheWithTTL_Close (mkTTL c))) now key
                 = Ret (false, c'))
  /\ (forall value, storable key (len value) ->
        fst (Cache_Get (snd (Cache_Set (snd (Cache_Close c)) key value)) key)
        = Some (bytes_of value)).
Proof.
  split; [reflexivity|]. split; [reflexivity|]. split; [reflexivity|].
  split; [rewrite Cache_Has_result, stored_Close; holds_nothing|].
  split; [rewrite Cache_Get_result, stored_Close; reflexivity|].
  split.
  { rewrite CacheWithTTL_Get_run.
    change (embedded (snd (CacheWithTTL_Close (mkTTL c)))) with (snd (Cache_Close c)).
    rewrite stored_Close. eexists. reflexivity. }
  split.
  { rewrite CacheWithTTL_Has_run.
    change (embedded (snd (CacheWithTTL_Close (mkTTL c)))) with (snd (Cache_Close c)).
    rewrite stored_Close. eexists. reflexivity. }
  intros value Hfit.
  rewrite Cache_Get_result, (stored_Set_fits _ _ _ Hfit). reflexivity.
Qed.

(** X6.  [Cache.Get] never returns nil, in any state: it returns a non-nil
    slice holding the stored value, and the empty slice both for a key
    that is not held and for a key that holds the zero-length value.  Only
    [Has] tells the two apart. *)
Theorem Cache_Get_is_never_nil (c : Cache) (key : string) :
  exists out : list byte,
    fst (Cache_Get c key) = Some out
    /\ (forall v, stored c key = Some v -> out = v)
    /\ (out = [] <-> stored c key = None \/ stored c key = Some [])
    /\ (fst (Cache_Has c key) = true <-> stored c key <> None).
Proof.
  rewrite Cache_Get_result, Cache_Has_result.
  exists (default [] (stored c key)). split; [reflexivity|].
  destruct (stored c key) as [v|]; cbn [from_option id].
  - split; [intros w Hw; congruence|]. split.
    + split; [intros ->; right; reflexivity|]. intros [Hn|Hs]; congruence.
    + rewrite bool_decide_eq_true. split; [discriminate|]. intros _. eexists. reflexivity.
  - split; [discriminate|]. split.
    + split; [left; reflexivity|reflexivity].
    + rewrite bool_decide_eq_true. split; [intros [x Hx]; discriminate Hx|].
      intros Hne. contradiction.
Qed.

(** ** The codec and the TTL facade *)

(** X7.  Unwrap undoes Wrap until the stamp is reached: for every payload
    (nil included), ttl and pair of clocks, Wrap at [t0] returns an
    envelope, and Unwrap of it at [t1] returns the payload's bytes in a
    non-nil slice with [true] when the millisecond reading of [t1] is
    below the stamp, and [(nil, false)] from the stamp on. *)
Theorem unwrap_after_wrap (t0 t1 : Time) (payload : slice) (ttl : Duration) :
  exists env : list byte,
    wrapCacheWithTTL t0 payload ttl = Ret (Some env)
    /\ unwrapCacheWithTTL t1 (Some env)
       = Ret (if expireAt t0 ttl <=? UnixMilli t1 then (None, false)
              else (Some (bytes_of payload), true)).
Proof.
  exists (envelope (expireAt t0 ttl) (bytes_of payload)).
  split; [apply wrapCacheWithTTL_envelope|].
  rewrite unwrapCacheWithTTL_envelope, expireAt_int64. reflexivity.
Qed.

Section AnyICache.
Context {T : Type} `{ICache T}.

Lemma CacheWithTTL_Get_any (c : CacheWithTTL T) now key :
  CacheWithTTL_Get c now key
  = Ret (read_envelope now (bytes_of (fst (ICache_Get (embedded c) key))),
         mkTTL (snd (ICache_Get (embedded c) key))).
Proof.
  unfold CacheWithTTL_Get.
  destruct (ICache_Get (embedded c) key) as [raw i]. cbn [fst snd].
  rewrite unwrapCacheWithTTL_cases. cbn [mbind outcome_bind].
  unfold read_envelope, len.
  destruct ((length (bytes_of raw) <? 8)%nat
            || (stamp (bytes_of raw) <=? UnixMilli now)); reflexivity.
Qed.

Lemma CacheWithTTL_Has_any (c : CacheWithTTL T) now key :
  CacheWithTTL_Has c now key
  = Ret (bool_decide
           (is_Some (read_envelope now (bytes_of (fst (ICache_Get (embedded c) key))))),
         mkTTL (snd (ICache_Get (embedded c) key))).
Proof.
  unfold CacheWithTTL_Has.
  destruct (ICache_Get (embedded c) key) as [raw i]. cbn [fst snd].
  rewrite unwrapCacheWithTTL_cases. cbn [mbind outcome_bind].
  unfold read_envelope, len.
  destruct ((length (bytes_of raw) <? 8)%nat
            || (stamp (bytes_of raw) <=? UnixMilli now)); reflexivity.
Qed.

(** X8.  Over any implementation of [ICache], the TTL facade surfaces the
    embedded cache's result unmodified: [Set] makes one inner [Set] with
    the envelope of the value and returns that call's error, and [Delete]
    and [Close] return the inner call's error; the facade afterwards
    embeds the cache the inner call left. *)
Theorem CacheWithTTL_surfaces_inner_errors (c : CacheWithTTL T) (now : Time)
    (key : string) (value : slice) (ttl : Duration) :
  CacheWithTTL_Set c now key value ttl
  = Ret (fst (ICache_Set (embedded c) key
                (Some (envelope (expireAt now ttl) (bytes_of value)))),
         mkTTL (snd (ICache_Set (embedded c) key
                       (Some (envelope (expireAt now ttl) (bytes_of value))))))
  /\ CacheWithTTL_Delete c key
     = (fst (ICache_Delete (embedded c) key),
        mkTTL (snd (ICache_Delete (embedded c) key)))
  /\ CacheWithTTL_Close c
     = (fst (ICache_Close (embedded c)), mkTTL (snd (ICache_Close (embedded c)))).
Proof.
  split.
  { unfold CacheWithTTL_Set. rewrite wrapCacheWithTTL_envelope.
    cbn [mbind outcome_bind].
    destruct (ICache_Set (embedded c) key _) as [err i]. reflexivity. }
  split.
  - unfold CacheWithTTL_Delete.
    destruct (ICache_Delete (embedded c) key) as [err i]. reflexivity.
  - unfold CacheWithTTL_Close.
    destruct (ICache_Close (embedded c)) as [err i]. reflexivity.
Qed.

(** X9.  Over any implementation of [ICache], the TTL facade's [Has] and
    [Get] make the same single inner [Get], end in the same state, never
    panic and agree: [Has] is true exactly when [Get] is non-nil, and then
    what [Get] returns is the inner value without its first eight bytes,
    which the inner value has. *)
Theorem CacheWithTTL_Has_agrees_with_Get_over_any_ICache
    (c : CacheWithTTL T) (now : Time) (key : string) :
  exists (b : bool) (r : slice),
    CacheWithTTL_Has c now key = Ret (b, mkTTL (snd (ICache_Get (embedded c) key)))
    /\ CacheWithTTL_Get c now key = Ret (r, mkTTL (snd (ICache_Get (embedded c) key)))
    /\ (b = true <-> r <> None)
    /\ (forall p, r = Some p ->
          (8 <= len (fst (ICache_Get (embedded c) key)))%nat
          /\ p = drop 8 (bytes_of (fst (ICache_Get (embedded c) key)))
          /\ UnixMilli now < stamp (bytes_of (fst (ICache_Get (embedded c) key)))).
Proof.
  rewrite CacheWithTTL_Has_any, CacheWithTTL_Get_any.
  eexists _, _. split; [reflexivity|]. split; [reflexivity|].
  split.
  - rewrite bool_decide_eq_true.
    destruct (read_envelope now _) as [p|]; split.
    + discriminate.
    + intros _. eexists. reflexivity.
    + intros [x Hx]. discriminate Hx.
    + intros Hne. contradiction.
  - intros p. unfold read_envelope, len.
    destruct (Nat.ltb_spec (length (bytes_of (fst (ICache_Get (embedded c) key)))) 8)
      as [Hshort|Hlong]; [discriminate|].
    destruct (Z.leb_spec (stamp (bytes_of (fst (ICache_Get (embedded c) key))))
                (UnixMilli now)) as [Hpast|Hlive]; [discriminate|].
    cbn [orb]. intros [= <-]. repeat split; assumption.
Qed.

End AnyICache.

Lemma CacheWithTTL_eta (c : CacheWithTTL Cache) : mkTTL (embedded c) = c.
Proof. destruct c. reflexivity. Qed.

Lemma embedded_CacheWithTTL_Delete (c : CacheWithTTL Cache) key :
  embedded (snd (CacheWithTTL_Delete c key)) = snd (Cache_Delete (embedded c) key).
Proof. reflexivity. Qed.

(** The reading of a clock [UnixNano] can represent is its whole
    milliseconds. *)
Lemma UnixMilli_wall t : wall_ok t -> UnixMilli t = t / 1000000.
Proof. intros Ht. apply UnixMilli_exact, wall_ok_reading, Ht. Qed.

Lemma expireAt_wall t ttl :
  wall_ok t -> is_int64 ttl -> expireAt t ttl = (t + ttl) / 1000000.
Proof.
  intros Ht Hd. unfold expireAt, Time_Add.
  apply UnixMilli_exact, wall_ok_millis; assumption.
Qed.

(** What a TTL read finds right after a TTL write of a storable entry. *)
Lemma CacheWithTTL_Get_after_Set (c : CacheWithTTL Cache) key value ttl t0 t1 :
  storable key (8 + len value) ->
  exists c1 c2,
    CacheWithTTL_Set c t0 key value ttl = Ret (None, c1)
    /\ CacheWithTTL_Get c1 t1 key
       = Ret ((if expireAt t0 ttl <=? UnixMilli t1 then None
               else Some (bytes_of value)), c2)
    /\ stored (embedded c2) key
       = Some (envelope (expireAt t0 ttl) (bytes_of value)).
Proof.
  intros Hfit. rewrite CacheWithTTL_Set_run. eexists _, _.
  split; [reflexivity|]. rewrite CacheWithTTL_Get_run. cbn [embedded].
  rewrite (read_after_Set (embedded c) key value t0 ttl t1 Hfit).
  split; [reflexivity|]. cbn [embedded]. rewrite stored_Get.
  apply stored_Set_fits. unfold len. cbn [bytes_of].
  rewrite length_envelope. exact Hfit.
Qed.


(** X11.  Expiry is only a matter of reading.  After a storable TTL [Set]
    and a TTL [Get] at any later or earlier clock -- also one that finds
    the entry expired and returns nil -- the embedded plain cache still has
    the key, and its [Get] still returns the whole envelope: the eight
    stamp bytes followed by the value. *)
Theorem expired_entry_stays_in_the_store (c : CacheWithTTL Cache) (key : string)
    (value : slice) (ttl : Duration) (t0 t1 : Time) :
  storable key (8 + len value) ->
  exists c1 r c2,
    CacheWithTTL_Set c t0 key value ttl = Ret (None, c1)
    /\ CacheWithTTL_Get c1 t1 key = Ret (r, c2)
    /\ (expireAt t0 ttl <= UnixMilli t1 -> r = None)
    /\ fst (Cache_Has (embedded c2) key) = true
    /\ fst (Cache_Get (embedded c2) key)
       = Some (big_endian 8 (to_uint64 (expireAt t0 ttl)) ++ bytes_of value).
Proof.
  intros Hfit.
  destruct (CacheWithTTL_Get_after_Set c key value ttl t0 t1 Hfit)
    as (c1 & c2 & Hset & Hget & Hstored).
  exists c1, (if expireAt t0 ttl <=? UnixMilli t1 then None
              else Some (bytes_of value)), c2.
  split; [exact Hset|]. split; [exact Hget|].
  split.
  { intros Hpast. apply Z.leb_le in Hpast. rewrite Hpast. reflexivity. }
  rewrite Cache_Has_result, Cache_Get_result, Hstored.
  split; [|reflexivity]. apply bool_decide_eq_true. eexists. reflexivity.
Qed.

(** X11 at one input: ttl 100 ms, read a second later. *)
Lemma expired_entry_stays_in_the_store_after_a_second :
  storable "k" (8 + len (Some [x2a]))
  /\ exists c1 c2,
       CacheWithTTL_Set (NewCacheWithTTL 1048576) 1700000000000000000 "k"
         (Some [x2a]) (100 * Millisecond) = Ret (None, c1)
       /\ CacheWithTTL_Get c1 1700000001000000000 "k" = Ret (None, c2)
       /\ fst (Cache_Has (embedded c2) "k") = true.
Proof.
  assert (Hfit : storable "k" (8 + len (Some [x2a]))) by (vm_compute; reflexivity).
  split; [exact Hfit|].
  destruct (expired_entry_stays_in_the_store (NewCacheWithTTL 1048576) "k"
              (Some [x2a]) (100 * Millisecond) 1700000000000000000
              1700000001000000000 Hfit)
    as (c1 & r & c2 & Hset & Hget & Hnil & Hhas & _).
  rewrite (Hnil ltac:(vm_compute; discriminate)) in Hget.
  exists c1, c2. repeat split; assumption.
Defined.

(** X12.  A lower bound in real time.  For clocks [UnixNano] can represent
    and a storable value, a [Get] issued at least one millisecond before
    [setTime + ttl] returns the value: rounding both readings down to
    whole milliseconds costs less than one millisecond of life. *)
Theorem CacheWithTTL_live_until_the_last_millisecond (c : CacheWithTTL Cache)
    (key : string) (value : slice) (ttl : Duration) (t0 t1 : Time) :
  storable key (8 + len value) ->
  wall_ok t0 -> wall_ok t1 -> is_int64 ttl ->
  t1 + Millisecond <= t0 + ttl ->
  exists c1 c2,
    CacheWithTTL_Set c t0 key value ttl = Ret (None, c1)
    /\ CacheWithTTL_Get c1 t1 key = Ret (Some (bytes_of value), c2).
Proof.
  intros Hfit H0 H1 Hd Hearly.
  destruct (CacheWithTTL_Get_after_Set c key value ttl t0 t1 Hfit)
    as (c1 & c2 & Hset & Hget & _).
  exists c1, c2. split; [exact Hset|]. rewrite Hget.
  assert (Hlive : UnixMilli t1 < expireAt t0 ttl).
  { rewrite (UnixMilli_wall t1 H1), (expireAt_wall t0 ttl H0 Hd).
    unfold Millisecond in Hearly.
    assert (Hstep : t1 / 1000000 + 1 <= (t0 + ttl) / 1000000).
    { rewrite <- (Z.div_add t1 1 1000000) by lia.
      apply Z.div_le_mono; lia. }
    lia. }
  apply Z.leb_gt in Hlive. rewrite Hlive. reflexivity.
Qed.

(** X12 at one input: ttl 100 ms, read 99 ms after a write that fell 0.9 ms
    into its millisecond. *)
Lemma CacheWithTTL_live_until_the_last_millisecond_99ms :
  storable "k" (8 + len (Some [x2a]))
  /\ 1700000000099900000 + Millisecond <= 1700000000000900000 + 100 * Millisecond
  /\ exists c1 c2,
       CacheWithTTL_Set (NewCacheWithTTL 1048576) 1700000000000900000 "k"
         (Some [x2a]) (100 * Millisecond) = Ret (None, c1)
       /\ CacheWithTTL_Get c1 1700000000099900000 "k" = Ret (Some [x2a], c2).
Proof.
  assert (Hfit : storable "k" (8 + len (Some [x2a]))) by (vm_compute; reflexivity).
  split; [exact Hfit|].
  assert (Hearly : 1700000000099900000 + Millisecond
                   <= 1700000000000900000 + 100 * Millisecond)
    by (unfold Millisecond; lia).
  split; [exact Hearly|].
  apply (CacheWithTTL_live_until_the_last_millisecond (NewCacheWithTTL 1048576)
           "k" (Some [x2a]) (100 * Millisecond) 1700000000000900000
           1700000000099900000 Hfit);
    try exact Hearly; unfold wall_ok, is_int64, two_63, Millisecond; lia.
Defined.

(** X13.  A ttl shorter than what is left of the current millisecond gives
    an entry that is never readable: when [setTime + ttl] falls in the
    millisecond of [setTime] or before it, the stamp is at most the reading
    at the write, and every [Get] from then on returns nil.  This covers
    zero and negative ttls, and positive ones below one millisecond. *)
Theorem CacheWithTTL_short_ttl_is_never_live (c : CacheWithTTL Cache)
    (key : string) (value : slice) (ttl : Duration) (t0 t1 : Time) :
  storable key (8 + len value) ->
  wall_ok t0 -> wall_ok t1 -> is_int64 ttl ->
  t0 mod 1000000 + ttl < 1000000 ->
  t0 <= t1 ->
  exists c1 c2,
    CacheWithTTL_Set c t0 key value ttl = Ret (None, c1)
    /\ CacheWithTTL_Get c1 t1 key = Ret (None, c2).
Proof.
  intros Hfit H0 H1 Hd Hshort Hlater.
  destruct (CacheWithTTL_Get_after_Set c key value ttl t0 t1 Hfit)
    as (c1 & c2 & Hset & Hget & _).
  exists c1, c2. split; [exact Hset|]. rewrite Hget.
  assert (Hpast : expireAt t0 ttl <= UnixMilli t1).
  { rewrite (UnixMilli_wall t1 H1), (expireAt_wall t0 ttl H0 Hd).
    assert (Hsame : (t0 + ttl) / 1000000 < t0 / 1000000 + 1).
    { apply Z.div_lt_upper_bound; [lia|].
      pose proof (Z.div_mod t0 1000000 ltac:(lia)). lia. }
    assert (Hmono : t0 / 1000000 <= t1 / 1000000) by (apply Z.div_le_mono; lia).
    lia. }
  apply Z.leb_le in Hpast. rewrite Hpast. reflexivity.
Qed.

(** X13 at one input: ttl half a millisecond, set 0.1 ms into a
    millisecond and read at once. *)
Lemma CacheWithTTL_short_ttl_is_never_live_500us :
  storable "k" (8 + len (Some [x2a]))
  /\ 0 < 500000
  /\ 1700000000000100000 mod 1000000 + 500000 < 1000000
  /\ exists c1 c2,
       CacheWithTTL_Set (NewCacheWithTTL 1048576) 1700000000000100000 "k"
         (Some [x2a]) 500000 = Ret (None, c1)
       /\ CacheWithTTL_Get c1 1700000000000100000 "k" = Ret (None, c2).
Proof.
  assert (Hfit : storable "k" (8 + len (Some [x2a]))) by (vm_compute; reflexivity).
  split; [exact Hfit|]. split; [reflexivity|].
  assert (Hshort : 1700000000000100000 mod 1000000 + 500000 < 1000000)
    by (vm_compute; reflexivity).
  split; [exact Hshort|].
  apply (CacheWithTTL_short_ttl_is_never_live (NewCacheWithTTL 1048576)
           "k" (Some [x2a]) 500000 1700000000000100000 1700000000000100000 Hfit);
    try exact Hshort; unfold wall_ok, is_int64, two_63; lia.
Defined.

(** X14.  A longer ttl never expires earlier.  For a clock [UnixNano] can
    represent and [int64] ttls with [ttl1 <= ttl2], the stamp for [ttl1] is
    at most the stamp for [ttl2] (the sum does not wrap), so at any clock
    at which a value set with [ttl1] would be read back, the same value set
    with [ttl2] is read back as well. *)
Theorem CacheWithTTL_longer_ttl_lives_longer (c : CacheWithTTL Cache)
    (key : string) (value : slice) (ttl1 ttl2 : Duration) (t0 t1 : Time) :
  storable key (8 + len value) ->
  wall_ok t0 -> is_int64 ttl1 -> is_int64 ttl2 -> ttl1 <= ttl2 ->
  expireAt t0 ttl1 <= expireAt t0 ttl2
  /\ (UnixMilli t1 < expireAt t0 ttl1 ->
      exists c1 c2,
        CacheWithTTL_Set c t0 key value ttl2 = Ret (None, c1)
        /\ CacheWithTTL_Get c1 t1 key = Ret (Some (bytes_of value), c2)).
Proof.
  intros Hfit H0 Hd1 Hd2 Hle.
  assert (Hmono : expireAt t0 ttl1 <= expireAt t0 ttl2).
  { rewrite !expireAt_wall by assumption. apply Z.div_le_mono; lia. }
  split; [exact Hmono|]. intros Hlive.
  destruct (CacheWithTTL_Get_after_Set c key value ttl2 t0 t1 Hfit)
    as (c1 & c2 & Hset & Hget & _).
  exists c1, c2. split; [exact Hset|]. rewrite Hget.
  assert (Hlive2 : UnixMilli t1 < expireAt t0 ttl2) by lia.
  apply Z.leb_gt in Hlive2. rewrite Hlive2. reflexivity.
Qed.

(** X14 at one input: ttls of one second and one hour. *)
Lemma CacheWithTTL_longer_ttl_lives_longer_second_hour :
  storable "k" (8 + len (Some [x2a]))
  /\ Second <= 3600 * Second
  /\ expireAt 1700000000000000000 Second
     <= expireAt 1700000000000000000 (3600 * Second).
Proof.
  assert (Hfit : storable "k" (8 + len (Some [x2a]))) by (vm_compute; reflexivity).
  split; [exact Hfit|].
  assert (Hle : Second <= 3600 * Second) by (unfold Second, Millisecond; lia).
  split; [exact Hle|].
  apply (CacheWithTTL_longer_ttl_lives_longer (NewCacheWithTTL 1048576) "k"
           (Some [x2a]) Second (3600 * Second) 1700000000000000000
           1700000000000500000 Hfit);
    try exact Hle; unfold wall_ok, is_int64, two_63, Second, Millisecond; lia.
Defined.

(** X15.  On the TTL facade a value within eight bytes of the ceiling is
    lost without a word: when header, key, stamp and value together reach
    64KB, [Set] returns the nil error and the facade is the one before the
    call, so a value set earlier under the key is still what [Get]
    returns, under its old expiry. *)
Theorem CacheWithTTL_Set_oversize_changes_nothing (c : CacheWithTTL Cache)
    (now : Time) (key : string) (value : slice) (ttl : Duration) :
  65536 <= 4 + Z.of_nat (String.length key) + Z.of_nat (8 + len value) ->
  CacheWithTTL_Set c now key value ttl = Ret (None, c).
Proof.
  intros Hbig. rewrite CacheWithTTL_Set_run.
  rewrite Cache_Set_dropped.
  - cbn [snd]. rewrite CacheWithTTL_eta. reflexivity.
  - apply oversize_not_storable. unfold len. cbn [bytes_of].
    rewrite length_envelope. exact Hbig.
Qed.

(** X15 at one input: a value of 65524 bytes, which the plain facade would
    store under this key, set with a ttl over a live one-byte value. *)
Lemma CacheWithTTL_Set_oversize_changes_nothing_65524 :
  let big := Some (replicate (Z.to_nat 65524) x00) in
  let t0 := 1700000000000000000 in
  65536 <= 4 + Z.of_nat (String.length "k") + Z.of_nat (8 + len big)
  /\ storable "k" (len big)
  /\ exists c1 c2,
       CacheWithTTL_Set (NewCacheWithTTL 1048576) t0 "k" (Some [x2a]) Second
       = Ret (None, c1)
       /\ CacheWithTTL_Set c1 t0 "k" big Second = Ret (None, c1)
       /\ CacheWithTTL_Get c1 t0 "k" = Ret (Some [x2a], c2).
Proof.
  intros big t0.
  assert (Hlen : len big = Z.to_nat 65524).
  { unfold len, big. cbn [bytes_of]. apply length_replicate. }
  assert (Hbig : 65536 <= 4 + Z.of_nat (String.length "k") + Z.of_nat (8 + len big)).
  { rewrite Hlen. cbn [String.length]. lia. }
  split; [exact Hbig|].
  split; [unfold storable; rewrite Hlen; cbn [String.length]; lia|].
  destruct (CacheWithTTL_Get_after_Set (NewCacheWithTTL 1048576) "k" (Some [x2a])
              Second t0 t0 ltac:(vm_compute; reflexivity))
    as (c1 & c2 & Hset & Hget & _).
  exists c1, c2. split; [exact Hset|].
  split; [exact (CacheWithTTL_Set_oversize_changes_nothing c1 t0 "k" big Second Hbig)|].
  rewrite Hget.
  replace (expireAt t0 Second <=? UnixMilli t0) with false by (vm_compute; reflexivity).
  reflexivity.
Defined.

(** ** Invariants over sequences of calls *)

Lemma stored_Set_cases c key v k x :
  stored (snd (Cache_Set c key v)) k = Some x ->
  (k = key /\ x = bytes_of v /\ storable key (len v)) \/ stored c k = Some x.
Proof.
  intros Hx. destruct (fastcache.fits key (bytes_of v)) eqn:Hfit.
  - apply fits_storable in Hfit. destruct (decide (key = k)) as [<-|Hne].
    + rewrite (stored_Set_fits _ _ _ Hfit) in Hx. injection Hx as <-.
      left. repeat split. exact Hfit.
    + rewrite (stored_Set_other _ _ _ _ Hne) in Hx. right. exact Hx.
  - assert (Hbig : ¬ storable key (len v)).
    { intros Hs. apply fits_storable in Hs. unfold len in Hs. congruence. }
    rewrite (stored_Set_dropped _ _ _ _ Hbig) in Hx. right. exact Hx.
Qed.

Lemma stored_Delete_cases c key k x :
  stored (snd (Cache_Delete c key)) k = Some x -> stored c k = Some x.
Proof.
  intros Hx. destruct (decide (key = k)) as [<-|Hne].
  - rewrite stored_Delete in Hx. discriminate Hx.
  - rewrite (stored_Delete_other _ _ _ Hne) in Hx. exact Hx.
Qed.

Lemma Cache_run_invariant (P : Cache -> Prop) :
  (forall c op, P c -> P (Cache_step c op)) ->
  forall ops c, P c -> P (Cache_run c ops).
Proof.
  intros Hstep ops. induction ops as [|op ops IH]; intros c Hc.
  - exact Hc.
  - cbn [Cache_run fold_left]. apply IH, Hstep, Hc.
Qed.

Lemma Cache_step_entries_storable c op :
  entries_storable c -> entries_storable (Cache_step c op).
Proof.
  intros Hinv k v. destruct op as [key|key|key value|key|]; cbn [Cache_step].
  - apply Hinv.
  - rewrite stored_Get. apply Hinv.
  - intros Hx. apply stored_Set_cases in Hx as [(-> & -> & Hfit)|Hold].
    + exact Hfit.
    + apply Hinv, Hold.
  - intros Hx. apply stored_Delete_cases in Hx. apply Hinv, Hx.
  - rewrite stored_Close. discriminate.
Qed.

Lemma length_write_through backing v :
  length (write_through backing v) = length backing.
Proof.
  unfold write_through. destruct (Nat.leb_spec (length v) (length backing)).
  - rewrite length_app, length_drop. lia.
  - reflexivity.
Qed.

Lemma pool_Cache_Get c key :
  pool (snd (Cache_Get c key))
  = write_through (fst (Pool_Get (pool c)))
      (bytes_of (fastcache.Get (cache c) (Some []) key))
    :: snd (Pool_Get (pool c)).
Proof.
  unfold Cache_Get. destruct (Pool_Get (pool c)) as [buf p].
  destruct (fastcache.Get (cache c) (Some []) key); reflexivity.
Qed.

Lemma Cache_Get_pool_settled c key :
  pool_settled c ->
  pool_settled (snd (Cache_Get c key))
  /\ length (pool (snd (Cache_Get c key))) = 1%nat.
Proof.
  intros [Hlen Hcap]. unfold pool_settled. rewrite pool_Cache_Get.
  destruct (pool c) as [|b [|b' p]]; cbn [Pool_Get fst snd length] in *.
  - repeat split; [lia|]. constructor; [|constructor].
    rewrite length_write_through. apply length_replicate.
  - repeat split; [lia|]. constructor; [|constructor].
    rewrite length_write_through. inversion Hcap; assumption.
  - lia.
Qed.

Lemma Cache_step_pool_settled c op :
  pool_settled c -> pool_settled (Cache_step c op).
Proof.
  intros Hinv.
  destruct op as [key|key|key value|key|]; cbn [Cache_step]; try exact Hinv.
  apply Cache_Get_pool_settled, Hinv.
Qed.

(** X16.  Whatever sequence of calls a single caller makes on a fresh
    plain cache, every entry the store holds is within the per-item
    ceiling, so [Get] never returns 65532 bytes or more, for any key. *)
Theorem Cache_run_keeps_entries_within_the_ceiling (maxBytes : Z)
    (ops : list Cache_call) (key : string) :
  entries_storable (Cache_run (NewCache maxBytes) ops)
  /\ exists out : list byte,
       fst (Cache_Get (Cache_run (NewCache maxBytes) ops) key) = Some out
       /\ Z.of_nat (length out) < 65532.
Proof.
  assert (Hinv : entries_storable (Cache_run (NewCache maxBytes) ops)).
  { apply (Cache_run_invariant entries_storable).
    - intros c op. apply Cache_step_entries_storable.
    - intros k v Hv. rewrite stored_NewCache in Hv. discriminate Hv. }
  split; [exact Hinv|].
  rewrite Cache_Get_result. eexists. split; [reflexivity|].
  destruct (stored (Cache_run (NewCache maxBytes) ops) key) as [v|] eqn:Hv;
    cbn [from_option id length].
  - apply Hinv in Hv. unfold storable in Hv. lia.
  - lia.
Qed.

(** X17.  Whatever sequence of calls a single caller makes on a fresh
    plain cache, the pool holds at most one scratch buffer afterwards and
    that buffer has the capacity [New] gave it, 1024 bytes: [Get] puts
    back the buffer it took, on the miss path as on the hit path, and
    never a grown one. *)
Theorem Cache_run_keeps_one_scratch_buffer (maxBytes : Z)
    (ops : list Cache_call) :
  (length (pool (Cache_run (NewCache maxBytes) ops)) <= 1)%nat
  /\ Forall (fun b => length b = 1024%nat)
       (pool (Cache_run (NewCache maxBytes) ops))
  /\ forall key,
       length (pool (snd (Cache_Get (Cache_run (NewCache maxBytes) ops) key)))
       = 1%nat.
Proof.
  assert (Hinv : pool_settled (Cache_run (NewCache maxBytes) ops)).
  { apply (Cache_run_invariant pool_settled).
    - intros c op. apply Cache_step_pool_settled.
    - split; [cbn; lia|constructor]. }
  split; [apply Hinv|]. split; [apply Hinv|].
  intros key. apply Cache_Get_pool_settled, Hinv.
Qed.

Lemma TTL_step_entries_enveloped (c : CacheWithTTL Cache) op :
  entries_enveloped (embedded c) ->
  exists c', TTL_step c op = Ret c' /\ entries_enveloped (embedded c').
Proof.
  intros Hinv. destruct op as [now key|now key|now key value ttl|key|];
    cbn [TTL_step].
  - rewrite CacheWithTTL_Has_run. eexists. split; [reflexivity|].
    cbn [snd embedded]. intros k v. rewrite stored_Get. apply Hinv.
  - rewrite CacheWithTTL_Get_run. eexists. split; [reflexivity|].
    cbn [snd embedded]. intros k v. rewrite stored_Get. apply Hinv.
  - rewrite CacheWithTTL_Set_run. eexists. split; [reflexivity|].
    cbn [snd embedded]. intros k v Hv.
    apply stored_Set_cases in Hv as [(-> & -> & _)|Hold].
    + cbn [bytes_of]. rewrite length_envelope. lia.
    + apply (Hinv k), Hold.
  - eexists. split; [reflexivity|]. intros k v Hv.
    rewrite embedded_CacheWithTTL_Delete in Hv.
    apply stored_Delete_cases in Hv. apply (Hinv k), Hv.
  - eexists. split; [reflexivity|]. intros k v Hv.
    change (embedded (snd (CacheWithTTL_Close c)))
      with (snd (Cache_Close (embedded c))) in Hv.
    rewrite stored_Close in Hv. discriminate Hv.
Qed.

Lemma TTL_run_entries_enveloped ops :
  forall c : CacheWithTTL Cache,
    entries_enveloped (embedded c) ->
    exists c', TTL_run c ops = Ret c' /\ entries_enveloped (embedded c').
Proof.
  induction ops as [|op ops IH]; intros c Hinv.
  - exists c. split; [reflexivity|exact Hinv].
  - destruct (TTL_step_entries_enveloped c op Hinv) as (c1 & Hstep & Hinv1).
    destruct (IH c1 Hinv1) as (c' & Hrun & Hinv').
    exists c'. split; [|exact Hinv']. cbn [TTL_run]. rewrite Hstep. exact Hrun.
Qed.

(** X18.  Whatever sequence of calls a single caller makes on a fresh TTL
    cache, at whatever clocks, no call panics and every entry the store
    holds afterwards is an envelope of eight bytes or more.  So on such a
    cache [Get] returns nil exactly when the key is not held or the
    clock's reading has reached the stamp of what it holds, and never
    because the stored bytes are too short to decode. *)
Theorem TTL_run_never_panics_and_stores_envelopes (maxBytes : Z)
    (ops : list TTL_call) (now : Time) (key : string) :
  exists c : CacheWithTTL Cache,
    TTL_run (NewCacheWithTTL maxBytes) ops = Ret c
    /\ entries_enveloped (embedded c)
    /\ exists r c',
         CacheWithTTL_Get c now key = Ret (r, c')
         /\ (r = None <->
             stored (embedded c) key = None
             \/ exists env, stored (embedded c) key = Some env
                            /\ stamp env <= UnixMilli now).
Proof.
  destruct (TTL_run_entries_enveloped ops (NewCacheWithTTL maxBytes))
    as (c & Hrun & Hinv).
  { intros k v Hv. cbn [embedded NewCacheWithTTL] in Hv.
    rewrite stored_NewCache in Hv. discriminate Hv. }
  exists c. split; [exact Hrun|]. split; [exact Hinv|].
  rewrite CacheWithTTL_Get_run. eexists _, _. split; [reflexivity|].
  destruct (stored (embedded c) key) as [env|] eqn:Henv; cbn [from_option id].
  - apply Hinv in Henv. unfold read_envelope.
    assert (Hlong : (length env <? 8)%nat = false) by (apply Nat.ltb_ge; exact Henv).
    rewrite Hlong. cbn [orb].
    destruct (Z.leb_spec (stamp env) (UnixMilli now)) as [Hpast|Hlive].
    + split; [|reflexivity]. intros _. right. exists env. split; [reflexivity|exact Hpast].
    + split; [discriminate|]. intros [Hnone|(e & He & Hpast)]; [discriminate|].
      injection He as <-. lia.
  - split; [|reflexivity]. intros _. left. reflexivity.
Qed.
